(** * html-to-image: the price-card pipeline of [src/index.js]

    A shallow embedding of the main-thread and worker code of the
    product-card generator, and the properties of its filter, digit
    formatter, page server, work partitioner and orchestrator.

    JavaScript values are modelled as the program uses them:
    - a string is its sequence of UTF-16 code units ([list Z]);
    - a Number read from JSON is a dyadic rational [m * 2^e] or an
      infinity (JSON text such as [1e999] parses to [Infinity]; JSON cannot
      denote NaN, and the sign of zero is not observable by this program);
    - an optional field is [Undefined], [Null] or a value;
    - an array is a list, addressed with [!!] and updated with [<[i:=x]>]. *)

From Stdlib Require Import ZArith QArith Qpower Qabs Lia List Ascii String.
From stdpp Require Import base option list.

Open Scope Z_scope.

(** ** Strings *)

Definition jsstring := list Z.

Definition bytes_of (s : string) : list Z :=
  (fun a => Z.of_N (N_of_ascii a)) <$> list_ascii_of_string s.

(** The source file is UTF-8; a literal of one, two or three bytes per
    character denotes one code unit.  (No literal of the program lies outside
    the Basic Multilingual Plane.) *)
Fixpoint utf8_decode (bytes : list Z) : jsstring :=
  match bytes with
  | [] => []
  | b :: rest =>
      if b <? 128 then b :: utf8_decode rest
      else match rest with
           | [] => [b]
           | c :: rest1 =>
               if b <? 224 then ((b - 192) * 64 + (c - 128)) :: utf8_decode rest1
               else match rest1 with
                    | [] => [b; c]
                    | d :: rest2 =>
                        ((b - 224) * 4096 + (c - 128) * 64 + (d - 128))
                          :: utf8_decode rest2
                    end
           end
  end.

(** A string literal of the source. *)
Definition lit (s : string) : jsstring := utf8_decode (bytes_of s).

(** The double quote, which the literals below cannot contain. *)
Definition dq : jsstring := [34].

Fixpoint starts_with (part s : jsstring) : bool :=
  match part, s with
  | [], _ => true
  | c :: part, d :: s => (c =? d) && starts_with part s
  | _ :: _, [] => false
  end.

(** [s.includes(part)] *)
Fixpoint includes (part s : jsstring) : bool :=
  starts_with part s
  || match s with
     | [] => false
     | _ :: rest => includes part rest
     end.

(** [a === b] on strings. *)
Definition string_strict_eq (a b : jsstring) : bool := bool_decide (a = b).

(** The code units [0] .. [9]. *)
Definition is_digit (c : Z) : bool := (48 <=? c) && (c <=? 57).

(** ** Numbers *)

Inductive number :=
| Finite (m e : Z)            (* the value m * 2^e *)
| Infinite (negative : bool).

(** [x === y] on Numbers: equality of the values. *)
Definition number_strict_eq (x y : number) : bool :=
  match x, y with
  | Finite m1 e1, Finite m2 e2 =>
      let e := Z.min e1 e2 in
      m1 * 2 ^ (e1 - e) =? m2 * 2 ^ (e2 - e)
  | Infinite a, Infinite b => Bool.eqb a b
  | _, _ => false
  end.

(** The mathematical value of a finite Number, for stating properties. *)
Definition Qvalue (m e : Z) : Q := (inject_Z m * 2 ^ e)%Q.

Definition same_value (x y : number) : Prop :=
  match x, y with
  | Finite m1 e1, Finite m2 e2 => (Qvalue m1 e1 == Qvalue m2 e2)%Q
  | Infinite a, Infinite b => a = b
  | _, _ => False
  end.

(** The values that are binary64 floating-point numbers.  Every Number of
    the program is one; the properties below hold of all values of the type. *)
Definition binary64 (x : number) : bool :=
  match x with
  | Finite m e => (Z.abs m <? 2 ^ 53) && (-1074 <=? e) && (e <=? 971)
  | Infinite _ => true
  end.

(** *** Decimal numerals *)

Fixpoint digits_fuel (fuel : nat) (n : Z) : jsstring :=
  match fuel with
  | O => []
  | S fuel =>
      if n <? 10 then [48 + n]
      else digits_fuel fuel (n / 10) ++ [48 + n mod 10]
  end.

(** The decimal representation of a non-negative integer, without leading
    zeroes; a number has at most [log2 n + 1] decimal digits. *)
Definition decimal (n : Z) : jsstring :=
  digits_fuel (S (Z.to_nat (Z.log2 n))) n.

(** [String(n)] for a Number that is the integer [n], of magnitude below
    2^53: every such integer is a Number, and is written in decimal digits
    without an exponent. *)
Definition integer_toString (n : Z) : jsstring :=
  if n <? 0 then lit "-" ++ decimal (- n) else decimal n.

(** The integer a sequence of decimal digits denotes. *)
Definition numeral_value (digits : jsstring) : Z :=
  foldl (fun acc c => acc * 10 + (c - 48)) 0 digits.

(** *** Number::toString for large values

    ECMAScript's [Number::toString] on a finite binary64 [m * 2^e >= 10^21]:
    the shortest decimal significand [s] (of [k] digits) with
    [s * 10^(n-k)] rounding to the value, the closest such when several
    exist, written in exponential notation since [n > 21]. *)

Definition canonical53 (m e : Z) : Z * Z :=
  let shift := 52 - Z.log2 m in
  (Z.shiftl m shift, e - shift).

(** Does the integer [v] round (to nearest, ties to even) to [m * 2^e],
    where [2^52 <= m < 2^53] and [2 <= e]? *)
Definition rounds_to (m e v : Z) : bool :=
  let x := m * 2 ^ e in
  let up := 2 ^ (e - 1) in
  let down := if m =? 2 ^ 52 then 2 ^ (e - 2) else 2 ^ (e - 1) in
  if Z.even m then (x - down <=? v) && (v <=? x + up)
  else (x - down <? v) && (v <? x + up).

(** Searches the significand length [k] upwards; returns the chosen decimal
    approximation of [m * 2^e]. *)
Fixpoint shortest_decimal (fuel : nat) (k : Z) (m e : Z) : Z :=
  let x := m * 2 ^ e in
  match fuel with
  | O => x
  | S fuel =>
      let t := 10 ^ (Z.of_nat (length (decimal x)) - k) in
      let below := x / t * t in
      let above := below + t in
      let pick_below :=
        rounds_to m e below &&
        (negb (rounds_to m e above) ||
         (x - below <? above - x) ||
         ((x - below =? above - x) && Z.even (below / t))) in
      if pick_below then below
      else if rounds_to m e above then above
      else shortest_decimal fuel (k + 1) m e
  end.

(** Drops the trailing zeroes of a numeral. *)
Fixpoint strip_zeroes_rev (rev_digits : jsstring) : jsstring :=
  match rev_digits with
  | c :: rest => if c =? 48 then strip_zeroes_rev rest else rev_digits
  | [] => []
  end.

Definition Number_toString_large (m e : Z) : jsstring :=
  let '(m53, e53) := canonical53 m e in
  let numeral := decimal (shortest_decimal 17 1 m53 e53) in
  let n := Z.of_nat (length numeral) in
  match rev (strip_zeroes_rev (rev numeral)) with
  | [] => []
  | [d] => [d] ++ lit "e+" ++ decimal (n - 1)
  | d :: ds => [d] ++ lit "." ++ ds ++ lit "e+" ++ decimal (n - 1)
  end.

(** *** Number.prototype.toFixed(2)

    Follows the steps of ECMAScript: a non-finite value prints as
    [Infinity]; for [|x| >= 10^21] the result is [ToString(|x|)]; otherwise
    [n] is the integer with [n / 100] closest to [|x|] (the larger when two
    are as close), printed with at least three digits and a point before the
    last two. *)

(** The integer nearest to [a * 2^e * 100], ties upwards. *)
Definition nearest_hundredths (a e : Z) : Z :=
  if 0 <=? e then a * 2 ^ e * 100
  else (a * 200 + 2 ^ (- e)) / 2 ^ (1 - e).

(** [10^21 <= a * 2^e] *)
Definition at_least_1e21 (a e : Z) : bool :=
  if 0 <=? e then 10 ^ 21 <=? a * 2 ^ e
  else 10 ^ 21 * 2 ^ (- e) <=? a.

Definition toFixed2 (x : number) : jsstring :=
  match x with
  | Infinite negative => if negative then lit "-Infinity" else lit "Infinity"
  | Finite m e =>
      let s := if m <? 0 then lit "-" else [] in
      let a := Z.abs m in
      if at_least_1e21 a e then s ++ Number_toString_large a e
      else
        let n := nearest_hundredths a e in
        let m0 := if n =? 0 then lit "0" else decimal n in
        let k0 := length m0 in
        let m1 := if (k0 <=? 2)%nat then replicate (3 - k0) 48 ++ m0 else m0 in
        let k := length m1 in
        let a := take (k - 2) m1 in
        let b := drop (k - 2) m1 in
        s ++ a ++ lit "." ++ b
  end.

(** The numeral with exactly two decimal places nearest to [m * 2^e]: the
    sign, the integer part, the point and two digits. *)
Definition two_decimals (m e : Z) : jsstring :=
  let n := nearest_hundredths (Z.abs m) e in
  (if m <? 0 then lit "-" else [])
  ++ decimal (n / 100) ++ lit "." ++ [48 + n mod 100 / 10; 48 + n mod 10].

(** ** Product records *)

(** A field that may be absent ([undefined]), [null], or hold a value. *)
Inductive optional (A : Type) :=
| Undefined
| Null
| Val (a : A).
Arguments Undefined {A}.
Arguments Null {A}.
Arguments Val {A} a.

Record Product := {
  productCode : jsstring;
  variation_suffix : optional jsstring;
  current_price : number;
  previous_price : optional number;
}.

(** A value used as a condition: [undefined], [null] and the empty string
    are falsy. *)
Definition truthy (v : optional jsstring) : bool :=
  match v with
  | Val (_ :: _) => true
  | _ => false
  end.

(** The text of a value inside a template literal. *)
Definition optional_toString (v : optional jsstring) : jsstring :=
  match v with
  | Undefined => lit "undefined"
  | Null => lit "null"
  | Val s => s
  end.

(** [a === b] on optional strings. *)
Definition optional_strict_eq (a b : optional jsstring) : bool :=
  match a, b with
  | Undefined, Undefined => true
  | Null, Null => true
  | Val s, Val t => string_strict_eq s t
  | _, _ => false
  end.

(** ** The filter of products needing an image *)

Definition is_null {A} (v : optional A) : bool :=
  match v with Null => true | _ => false end.

Definition is_undefined {A} (v : optional A) : bool :=
  match v with Undefined => true | _ => false end.

(** [v === x] for a Number [x]: no other type of value equals it. *)
Definition strict_eq_number (v : optional number) (x : number) : bool :=
  match v with
  | Val y => number_strict_eq y x
  | _ => false
  end.

(** The callback of [productsData.filter]. *)
Definition price_changed (product : Product) : bool :=
  is_null (previous_price product)
  || is_undefined (previous_price product)
  || negb (strict_eq_number (previous_price product) (current_price product)).

Definition productsToProcess (productsData : list Product) : list Product :=
  List.filter price_changed productsData.

(** The records the specification selects: no previous price, or one that
    differs from the current price. *)
Definition pending (r : Product) : Prop :=
  previous_price r = Null \/ previous_price r = Undefined
  \/ exists previous, previous_price r = Val previous
                    /\ ~ same_value previous (current_price r).

(** The records whose previous price equals the current one. *)
Definition up_to_date (r : Product) : Prop :=
  exists previous, previous_price r = Val previous
                /\ same_value previous (current_price r).

(** ** convertToArabicDigits *)

Definition arabicDigits : list jsstring :=
  [lit "٠"; lit "١"; lit "٢"; lit "٣"; lit "٤"; lit "٥"; lit "٦"; lit "٧"; lit "٨"; lit "٩"].

(** [arabicDigits[match]] for a matched digit; a missing element would be
    inserted as the text [undefined]. *)
Definition replace_digit (c : Z) : jsstring :=
  default (lit "undefined") (arabicDigits !! Z.to_nat (c - 48)).

(** [num.toString().replace(/\d/g, match => arabicDigits[match])] on a
    string [num]. *)
Definition convertToArabicDigits (num : jsstring) : jsstring :=
  flat_map (fun c => if is_digit c then replace_digit c else [c]) num.

(** The Arabic-indic glyph of the digit [d], U+0660 + d. *)
Definition arabic_glyph (d : Z) : Z := 1632 + d.

(** The inverse glyph table of the specification: each Arabic-indic digit
    back to the Western digit, every other code unit unchanged. *)
Definition fromArabicDigits (s : jsstring) : jsstring :=
  (fun c => if (arabic_glyph 0 <=? c) && (c <=? arabic_glyph 9)
            then c - arabic_glyph 0 + 48 else c) <$> s.

(** ** The page server *)

(** *** parseInt(string), radix omitted *)

Definition is_whitespace (c : Z) : bool :=
  bool_decide (c ∈ [9; 10; 11; 12; 13; 32; 160; 5760; 8232; 8233; 8239; 8287;
                    12288; 65279])
  || ((8192 <=? c) && (c <=? 8202)).

Fixpoint trim_start (s : jsstring) : jsstring :=
  match s with
  | c :: rest => if is_whitespace c then trim_start rest else s
  | [] => []
  end.

(** The value of a digit in the given radix, if it is one. *)
Definition digit_value (radix c : Z) : option Z :=
  let v := if (48 <=? c) && (c <=? 57) then c - 48
           else if (97 <=? c) && (c <=? 122) then c - 97 + 10
           else if (65 <=? c) && (c <=? 90) then c - 65 + 10
           else radix in
  if v <? radix then Some v else None.

(** Reads the longest prefix of digits, accumulating its value; also tells
    whether any digit was read. *)
Fixpoint read_digits (radix : Z) (s : jsstring) (acc : Z) (any : bool) : Z * bool :=
  match s with
  | c :: rest =>
      match digit_value radix c with
      | Some v => read_digits radix rest (acc * radix + v) true
      | None => (acc, any)
      end
  | [] => (acc, any)
  end.

(** A leading [-] or [+]. *)
Definition strip_sign (s : jsstring) : Z * jsstring :=
  match s with
  | c :: rest =>
      if c =? 45 then (-1, rest)
      else if c =? 43 then (1, rest)
      else (1, s)
  | [] => (1, s)
  end.

Definition has_hex_prefix (s : jsstring) : bool :=
  match s with
  | c :: x :: _ => (c =? 48) && ((x =? 120) || (x =? 88))     (* 0x, 0X *)
  | _ => false
  end.

(** A leading [0x] or [0X] selects radix 16; the radix is 10 otherwise. *)
Definition strip_prefix (s : jsstring) : Z * jsstring :=
  if has_hex_prefix s then (16, drop 2 s) else (10, s).

(** [None] is NaN.  The integer is exact; the Number the runtime returns is
    its binary64 rounding, which compares alike with every array length. *)
Definition parseInt (string : jsstring) : option Z :=
  let '(sign, unsigned) := strip_sign (trim_start string) in
  let '(radix, numeral) := strip_prefix unsigned in
  match read_digits radix numeral 0 false with
  | (mathInt, true) => Some (sign * mathInt)
  | (_, false) => None
  end.

(** *** The template *)

(** EJS's escaping of a value written with an output tag. *)
Definition escapeXML (markup : jsstring) : jsstring :=
  flat_map (fun c =>
    if c =? 38 then lit "&amp;"
    else if c =? 60 then lit "&lt;"
    else if c =? 62 then lit "&gt;"
    else if c =? 34 then lit "&#34;"
    else if c =? 39 then lit "&#39;"
    else [c]) markup.

(** The code units [&], [<], [>] and the two quotes. *)
Definition escaped (c : Z) : bool :=
  (c =? 38) || (c =? 60) || (c =? 62) || (c =? 34) || (c =? 39).

(** [htmlTemplate], cut at its two output tags. *)
Definition htmlTemplate_head : jsstring :=
  lit "
  <!DOCTYPE html>
  <html lang=" ++ dq ++ lit "ar" ++ dq ++ lit " dir=" ++ dq ++ lit "rtl" ++ dq ++ lit ">
    <head>
      <meta charset=" ++ dq ++ lit "UTF-8" ++ dq ++ lit " />
      <meta name=" ++ dq ++ lit "viewport" ++ dq ++ lit " content=" ++ dq ++ lit "width=device-width, initial-scale=1.0" ++ dq ++ lit " />
      <title>بطاقة المنتج</title>
      <style>
        * {
          margin: 0;
          padding: 0;
          box-sizing: border-box;
          font-family: 'Arial', sans-serif;
        }
        
        body {
          background-color: white;
          margin: 0;
          padding: 0;
          width: 100vw;
          height: 100vh;
          overflow: hidden;
          display: grid;
          place-items: center;
        }
        
        .product-card {
          width: 100dvw;
          height: 100dvh;
          position: relative;
          overflow: hidden;
          background: transparent;
          border-radius: 10px;
        }
        
        .product-image {
          width: 100%;
          height: 100%;
          position: relative;
        }
        
        .product-image img {
          width: 100%;
          height: 100%;
          object-fit: contain;
        }
        
        /* Larger circular price tag with rotation */
        .price-circle {
          position: absolute;
          top: 200px;
          right: 30px;
          width: 150px;
          height: 150px;
          background-color: black;
          border: 5px solid white;
          border-radius: 50%;
          display: flex;
          flex-direction: column;
          justify-content: center;
          align-items: center;
          color: white;
          font-weight: bold;
          z-index: 10;
          box-shadow: 0 6px 12px rgba(0, 0, 0, 0.4);
          transform: rotate(30deg);
        }
        
        .price-value {
          font-size: 36px;
          line-height: 1;
          margin-bottom: 4px;
          text-shadow: 0 1px 2px rgba(0, 0, 0, 0.2);
        }
        
        .price-currency {
          font-size: 24px;
          text-shadow: 0 1px 2px rgba(0, 0, 0, 0.2);
        }
      </style>
    </head>
    <body>
      <div class=" ++ dq ++ lit "product-card" ++ dq ++ lit ">
        <div class=" ++ dq ++ lit "product-image" ++ dq ++ lit ">
          <img src=" ++ dq.

Definition htmlTemplate_middle : jsstring :=
  dq ++ lit " alt=" ++ dq ++ lit "صورة المنتج" ++ dq ++ lit " />
          <div class=" ++ dq ++ lit "price-circle" ++ dq ++ lit ">
            <div class=" ++ dq ++ lit "price-value" ++ dq ++ lit ">".

Definition htmlTemplate_tail : jsstring :=
  lit "</div>
          </div>
        </div>
      </div>
    </body>
  </html>
  ".

(** [ejs.render(htmlTemplate, {imageUrl, priceInArabic})] *)
Definition render (imageUrl priceInArabic : jsstring) : jsstring :=
  htmlTemplate_head ++ escapeXML imageUrl
  ++ htmlTemplate_middle ++ escapeXML priceInArabic
  ++ htmlTemplate_tail.

(** *** GET /product/:index *)

Record response := { status : Z; body : jsstring }.

Definition imageFileName (product : Product) : jsstring :=
  if truthy (variation_suffix product)
  then productCode product ++ lit "_"
       ++ optional_toString (variation_suffix product) ++ lit ".jpg"
  else productCode product ++ lit ".jpg".

Definition product_page (product : Product) : jsstring :=
  let price := toFixed2 (current_price product) in
  let priceInArabic := convertToArabicDigits price in
  render (lit "/images/" ++ imageFileName product) priceInArabic.

Definition not_found : response :=
  {| status := 404; body := lit "Product not found" |}.

(** The route handler, on the decoded [:index] segment of the path. *)
Definition get_product (productsData : list Product) (index : jsstring) : response :=
  match parseInt index with
  | None => not_found                                    (* isNaN(productIndex) *)
  | Some productIndex =>
      if (productIndex <? 0) || (Z.of_nat (length productsData) <=? productIndex)
      then not_found
      else
        match productsData !! Z.to_nat productIndex with
        | Some product => {| status := 200; body := product_page product |}
        | None => {| status := 500; body := [] |}        (* not reached *)
        end
  end.

(** The image path of the specification: [/images/{productCode}.jpg], or
    [/images/{productCode}_{variation_suffix}.jpg] for a record with a
    variation suffix (a non-empty one). *)
Definition image_path (p : Product) : jsstring :=
  lit "/images/" ++ productCode p
  ++ match variation_suffix p with
     | Val (c :: suffix) => lit "_" ++ (c :: suffix)
     | _ => []
     end
  ++ lit ".jpg".

(** The binary64 number that the JSON text [19.9] denotes. *)
Definition price_19_9 : number := Finite 5601352036542054 (-48).

(** The path a worker navigates to: [`/product/${index}`]. *)
Definition index_segment (index : Z) : jsstring := integer_toString index.

(** ** The work partitioner *)

Record work_item := { index : Z; product : Product }.

(** The callback of [productsData.findIndex] in [chunkArray]. *)
Definition same_product (p item : Product) : bool :=
  string_strict_eq (productCode p) (productCode item)
  && (optional_strict_eq (variation_suffix p) (variation_suffix item)
      || (negb (truthy (variation_suffix p)) && negb (truthy (variation_suffix item)))).

(** [array.findIndex(predicate)], scanning from position [k]. *)
Fixpoint findIndex_from {A} (predicate : A -> bool) (array : list A) (k : Z) : Z :=
  match array with
  | [] => -1
  | x :: rest => if predicate x then k else findIndex_from predicate rest (k + 1)
  end.

Definition findIndex {A} (predicate : A -> bool) (array : list A) : Z :=
  findIndex_from predicate array 0.

(** The object pushed for an item: the item and the position of the first
    record of [productsData] that matches it. *)
Definition work_item_of (productsData : list Product) (item : Product) : work_item :=
  {| index := findIndex (fun p => same_product p item) productsData;
     product := item |}.

(** [chunkArray(array, chunkCount)]; [None] is the TypeError of pushing to
    a chunk that does not exist. *)
Definition chunkArray (productsData array : list Product) (chunkCount : nat)
  : option (list (list work_item)) :=
  foldl (fun chunks '(index, item) =>
           chunks ← chunks;
           let chunkIndex := (index mod chunkCount)%nat in
           chunk ← chunks !! chunkIndex;
           Some (<[chunkIndex := chunk ++ [work_item_of productsData item]]> chunks))
        (Some (replicate chunkCount []))
        (imap pair array).

(** The identity key of the specification: the product code and the
    variation suffix, an absent, null or empty suffix counting as none. *)
Definition identity_key (p : Product) : jsstring * option jsstring :=
  (productCode p,
   match variation_suffix p with
   | Val (c :: suffix) => Some (c :: suffix)
   | _ => None
   end).

(** The items at the positions congruent to [j] modulo [K], in order. *)
Definition group_of {A} (K j : nat) (array : list A) : list A :=
  snd <$> filter (fun ix => (ix.1 mod K)%nat = j) (imap pair array).

(** Groups that hold every [K]-th item of a list. *)
Definition strided {A} (K : nat) (l : list A) (G : list (list A)) : Prop :=
  length G = K
  /\ forall j, (j < K)%nat ->
       exists c, G !! j = Some c /\ forall q, c !! q = l !! (q * K + j)%nat.

(** The partition of the specification: [K] groups, the item at position
    [i] in group [i mod K]. *)
Definition groups (productsData : list Product) (K : nat) (array : list Product)
  : list (list work_item) :=
  (fun j => work_item_of productsData <$> group_of K j array) <$> seq 0 K.

(** No two records of the collection have the same identity key. *)
Definition unique_keys (productsData : list Product) : Prop :=
  forall i j p q,
    productsData !! i = Some p -> productsData !! j = Some q ->
    identity_key p = identity_key q -> i = j.

(** Re-merging groups by round-robin, as the specification words it: one
    item of every group that still has one, group after group, round
    after round. *)
Definition heads {A} (groups : list (list A)) : list A :=
  flat_map (fun g => match g with [] => [] | x :: _ => [x] end) groups.

Fixpoint rounds {A} (n : nat) (groups : list (list A)) : list A :=
  match n with
  | O => []
  | S n => heads groups ++ rounds n (tail <$> groups)
  end.

Definition round_robin {A} (groups : list (list A)) : list A :=
  rounds (length (concat groups)) groups.

(** ** The orchestrator *)

(** [Math.max(1, Math.floor(os.cpus().length * 0.75))] *)
Definition NUM_WORKERS (cpus : nat) : nat := Nat.max 1 (cpus * 3 / 4).

(** [productsData.map(product => ({...product, previous_price: product.current_price}))] *)
Definition updatedProducts (productsData : list Product) : list Product :=
  (fun product =>
     {| productCode := productCode product;
        variation_suffix := variation_suffix product;
        current_price := current_price product;
        previous_price := Val (current_price product) |}) <$> productsData.

Inductive directory := OutputDir | ImagesDir.

Inductive log_line :=
| LogLoaded (count : nat)
| LogCreated (dir : directory)
| LogFound (count : nat)
| LogNoChanges
| LogStarting (workers : nat)
| LogServerRunning (port : Z)
| LogWorkerSays (worker : nat) (message : jsstring)
| LogWorkerError (worker : nat)
| LogServerClosed
| LogSuccess (count : nat)
| LogUpdated
| LogRejected.

(** What the main thread does to the world, in order. *)
Inductive effect :=
| Console (line : log_line)
| MakeDirectory (dir : directory)
| ServerListen (port : Z)
| NewWorker (productChunk : list work_item)
| ServerClose
| WriteProducts (products : list Product).

(** What arrives from the worker created in iteration [i] of the loop. *)
Inductive worker_event :=
| Message (message : jsstring)
| UncaughtError.

Definition inbox := list (nat * worker_event).

(** The top-level statements before [main()]. *)
Definition startup (outputDir_exists imagesDir_exists : bool)
    (productsData : list Product) : list effect :=
  [Console (LogLoaded (length productsData))]
  ++ (if outputDir_exists then []
      else [MakeDirectory OutputDir; Console (LogCreated OutputDir)])
  ++ (if imagesDir_exists then []
      else [MakeDirectory ImagesDir; Console (LogCreated ImagesDir)])
  ++ [Console (LogFound (length (productsToProcess productsData)))].

(** The loop of [workerPromise]: a worker for each chunk that is not empty,
    with the iteration that created it. *)
Definition spawn (productChunks : list (list work_item)) (NUM_WORKERS : nat)
  : list (nat * list work_item) :=
  flat_map (fun i =>
              match productChunks !! i with
              | Some (item :: chunk) => [(i, item :: chunk)]
              | _ => []
              end)
           (seq 0 NUM_WORKERS).

(** The statements of [main] after [await workerPromise], in a run in which
    they all return.  [WriteProducts products] is the call
    [fs.writeFileSync(productsFilePath, JSON.stringify(products, null, 2))];
    what it leaves in the file is [written_file products], below. *)
Definition shutdown_and_persist (productsData : list Product) : list effect :=
  [ServerClose;
   Console (LogSuccess (length (productsToProcess productsData)));
   WriteProducts (updatedProducts productsData);
   Console LogUpdated;
   Console LogServerClosed].

(** The event handlers of the workers, run on the events in arrival order;
    [main] resumes when [completedWorkers === workers.length]. *)
Fixpoint await_workers (productsData : list Product)
    (workers_length completedWorkers : nat) (events : inbox) : list effect :=
  match events with
  | [] => []
  | (i, Message message) :: events =>
      Console (LogWorkerSays (i + 1) message)
      :: if string_strict_eq message (lit "DONE") then
           let completedWorkers := S completedWorkers in
           (if (completedWorkers =? workers_length)%nat
            then shutdown_and_persist productsData else [])
           ++ await_workers productsData workers_length completedWorkers events
         else await_workers productsData workers_length completedWorkers events
  | (i, UncaughtError) :: events =>
      Console (LogWorkerError (i + 1))
      :: await_workers productsData workers_length completedWorkers events
  end.

(** The workers [main] creates. *)
Definition workers (productsData : list Product) (NUM_WORKERS : nat)
  : list (nat * list work_item) :=
  if (length (productsToProcess productsData) =? 0)%nat then []
  else match chunkArray productsData (productsToProcess productsData) NUM_WORKERS with
       | Some productChunks => spawn productChunks NUM_WORKERS
       | None => []
       end.

(** [main()], given the events that arrive from the workers. *)
Definition main (productsData : list Product) (NUM_WORKERS : nat)
    (events : inbox) : list effect :=
  if (length (productsToProcess productsData) =? 0)%nat then
    [Console LogNoChanges]
  else
    [Console (LogStarting NUM_WORKERS); ServerListen 3000;
     Console (LogServerRunning 3000)]
    ++ match chunkArray productsData (productsToProcess productsData) NUM_WORKERS with
       | None => [Console LogRejected]          (* main().catch(console.error) *)
       | Some productChunks =>
           let workers := spawn productChunks NUM_WORKERS in
           (NewWorker <$> workers.*2)
           ++ if (length workers =? 0)%nat
              then shutdown_and_persist productsData
              else await_workers productsData (length workers) 0 events
       end.

(** The main thread, from start to the last event. *)
Definition main_thread (outputDir_exists imagesDir_exists : bool)
    (productsData : list Product) (NUM_WORKERS : nat) (events : inbox)
  : list effect :=
  startup outputDir_exists imagesDir_exists productsData
  ++ main productsData NUM_WORKERS events.

(** The collection the product file was last written from, [store] when the
    effects hold no write. *)
Definition store_after (effects : list effect) (store : list Product) : list Product :=
  foldl (fun store e =>
           match e with
           | WriteProducts products => products
           | _ => store
           end) store effects.

Definition starts_server (e : effect) : bool :=
  match e with ServerListen _ => true | _ => false end.

Definition creates_worker (e : effect) : bool :=
  match e with NewWorker _ => true | _ => false end.

Definition writes_store (e : effect) : bool :=
  match e with WriteProducts _ => true | _ => false end.

Definition stops_server (e : effect) : bool :=
  match e with ServerClose => true | _ => false end.

(** The number of completion notifications among messages. *)
Definition count_done (messages : list jsstring) : nat :=
  length (List.filter (fun message => string_strict_eq message (lit "DONE")) messages).

(** The completion notifications among the events, whoever sent them. *)
Definition all_messages (events : inbox) : list jsstring :=
  flat_map (fun '(_, event) =>
              match event with
              | Message message => [message]
              | UncaughtError => []
              end) events.

(** Does the effect belong to the steps after the wait? *)
Definition after_wait (e : effect) : bool := stops_server e || writes_store e.

(** ** The capture workers *)

Definition outputFileName (product : Product) : jsstring :=
  if truthy (variation_suffix product)
  then productCode product ++ lit "_"
       ++ optional_toString (variation_suffix product) ++ lit ".webp"
  else productCode product ++ lit ".webp".

Definition processing_message (item : work_item) : jsstring :=
  lit "Processing product " ++ integer_toString (index item + 1)
  ++ lit ": Product Code " ++ productCode (product item)
  ++ (if truthy (variation_suffix (product item))
      then lit "_" ++ optional_toString (variation_suffix (product item))
      else []).

(** Where the browser throws, if it does; [error] is [error.message]. *)
Inductive outcome :=
| Completes
| FailsLaunching (error : jsstring)       (* launch, newPage, setViewport *)
| FailsAtItem (i : nat) (error : jsstring)
                                          (* goto or screenshot of item i *)
| FailsClosing (error : jsstring).        (* browser.close() after the loop *)

Section Worker.

(** Node's [path.join]. *)
Variable path_join : jsstring -> jsstring -> jsstring.
Variable outputDir : jsstring.

Definition item_messages (item : work_item) : list jsstring :=
  [processing_message item;
   lit "Generated image: " ++ path_join outputDir (outputFileName (product item))].

Definition error_message (error : jsstring) : jsstring := lit "Error: " ++ error.

(** The messages a worker posts to the main thread, in order. *)
Definition worker (productChunk : list work_item) (o : outcome) : list jsstring :=
  match o with
  | Completes => flat_map item_messages productChunk ++ [lit "DONE"]
  | FailsLaunching error => [error_message error]
  | FailsAtItem i error =>
      match productChunk !! i with
      | Some item =>
          flat_map item_messages (take i productChunk)
          ++ [processing_message item] ++ [error_message error]
      | None => flat_map item_messages productChunk ++ [lit "DONE"]
      end
  | FailsClosing error => flat_map item_messages productChunk ++ [error_message error]
  end.

(** The messages of worker [i] among the events. *)
Definition messages_from (i : nat) (events : inbox) : list jsstring :=
  flat_map (fun '(j, event) =>
              match event with
              | Message message => if (i =? j)%nat then [message] else []
              | UncaughtError => []
              end) events.

Fixpoint is_prefix (a b : list jsstring) : bool :=
  match a, b with
  | [], _ => true
  | x :: a, y :: b => string_strict_eq x y && is_prefix a b
  | _ :: _, [] => false
  end.

(** The events are what the created workers can have sent so far: each
    worker's messages are an initial part of what it posts, and no one
    else sends any. *)
Definition sent_by (created : list (nat * list work_item))
    (outcomes : nat -> outcome) (events : inbox) : bool :=
  forallb (fun '(i, productChunk) =>
             is_prefix (messages_from i events) (worker productChunk (outcomes i)))
          created
  && forallb (fun '(j, _) => bool_decide (j ∈ created.*1)) events.

End Worker.

(** ** The product file *)

Definition is_finite (x : number) : bool :=
  match x with
  | Finite _ _ => true
  | Infinite _ => false
  end.

(** A record of the product file, its fields as [JSON.parse] reads them. *)
Record file_record := {
  file_productCode : jsstring;
  file_variation_suffix : optional jsstring;
  file_current_price : optional number;
  file_previous_price : optional number;
}.

(** What [JSON.parse] reads where [JSON.stringify] wrote a Number: a finite
    number is written in digits that read back as the same number, a
    non-finite one as [null]. *)
Definition JSON_number (x : number) : optional number :=
  match x with
  | Finite m e => Val (Finite m e)
  | Infinite _ => Null
  end.

(** The record [JSON.stringify] writes for a product: strings and [null] as
    they are, a property that is [undefined] left out. *)
Definition JSON_record (p : Product) : file_record :=
  {| file_productCode := productCode p;
     file_variation_suffix := variation_suffix p;
     file_current_price := JSON_number (current_price p);
     file_previous_price :=
       match previous_price p with
       | Val x => JSON_number x
       | Null => Null
       | Undefined => Undefined
       end |}.

(** The content of the product file once
    [fs.writeFileSync(productsFilePath, JSON.stringify(products, null, 2), 'utf8')]
    has returned. *)
Definition written_file (products : list Product) : list file_record :=
  JSON_record <$> products.

(** The record of the file that is read as the product [p]. *)
Definition read_as (p : Product) : file_record :=
  {| file_productCode := productCode p;
     file_variation_suffix := variation_suffix p;
     file_current_price := Val (current_price p);
     file_previous_price := previous_price p |}.

(** ** Auxiliary notions *)

(** The code units of the Arabic-indic digits. *)
Definition is_arabic_digit (c : Z) : bool := (1632 <=? c) && (c <=? 1641).

(** The hexadecimal digits and the number a sequence of them denotes. *)
Definition is_hex_digit (c : Z) : bool :=
  ((48 <=? c) && (c <=? 57)) || ((97 <=? c) && (c <=? 102))
  || ((65 <=? c) && (c <=? 70)).

Definition hex_digit_value (c : Z) : Z :=
  if c <=? 57 then c - 48 else if 97 <=? c then c - 87 else c - 55.

Definition hex_value (digits : jsstring) : Z :=
  foldl (fun acc c => acc * 16 + hex_digit_value c) 0 digits.

(** The close of the server and the write of the product file, in order. *)
Definition final_steps (productsData : list Product) : list effect :=
  [ServerClose; WriteProducts (updatedProducts productsData)].

(** ** Sample data *)

(** Product A is up to date, B has no previous price, C has a different
    one. *)
Definition product_A : Product :=
  {| productCode := lit "A"; variation_suffix := Undefined;
     current_price := price_19_9; previous_price := Val price_19_9 |}.

Definition product_B : Product :=
  {| productCode := lit "B"; variation_suffix := Val (lit "red");
     current_price := Finite 5 0; previous_price := Undefined |}.

Definition product_C : Product :=
  {| productCode := lit "C"; variation_suffix := Null;
     current_price := Finite 15 (-1); previous_price := Val (Finite 5 0) |}.

Definition sample_products : list Product := [product_A; product_B; product_C].

Definition six_products : list Product := sample_products ++ sample_products.

(** A product whose code needs escaping and whose price is 10^21. *)
Definition product_huge : Product :=
  {| productCode := lit "A&B"; variation_suffix := Undefined;
     current_price := Finite (5 ^ 21) 21; previous_price := Undefined |}.


Definition work_B : work_item := {| index := 1; product := product_B |}.

Definition work_C : work_item := {| index := 2; product := product_C |}.

Definition sample_path_join (a b : jsstring) : jsstring := a ++ lit "/" ++ b.

Definition sample_outputDir : jsstring := lit "/app/generated_cards".

(** With two workers, worker 0 gets B and worker 1 gets C; both complete. *)
Definition sample_events : inbox :=
  [(0%nat, Message (processing_message work_B));
   (1%nat, Message (processing_message work_C));
   (1%nat, Message (lit "Generated image: /app/generated_cards/C.webp"));
   (1%nat, Message (lit "DONE"));
   (0%nat, Message (lit "Generated image: /app/generated_cards/B_red.webp"));
   (0%nat, Message (lit "DONE"))].

(** Worker 1 fails navigating to its first page. *)
Definition sample_outcomes_failing (i : nat) : outcome :=
  match i with
  | 1%nat => FailsAtItem 0 (lit "net::ERR_CONNECTION_REFUSED")
  | _ => Completes
  end.

Definition sample_events_failing : inbox :=
  [(0%nat, Message (processing_message work_B));
   (1%nat, Message (processing_message work_C));
   (1%nat, Message (lit "Error: net::ERR_CONNECTION_REFUSED"));
   (1%nat, UncaughtError);
   (0%nat, Message (lit "Generated image: /app/generated_cards/B_red.webp"));
   (0%nat, Message (lit "DONE"))].

(** * Properties *)

(** ** Numbers *)

Lemma Qpower2_nonzero (e : Z) : ~ (2 ^ e == 0)%Q.
Proof. apply Qpower_not_0. discriminate. Qed.

(** A finite value, rescaled to a smaller exponent. *)
Lemma Qvalue_rescale (m e e0 : Z) :
  e0 <= e -> (Qvalue m e == inject_Z (m * 2 ^ (e - e0)) * 2 ^ e0)%Q.
Proof.
  intros Hle. unfold Qvalue.
  replace e with ((e - e0) + e0) at 1 by lia.
  rewrite Qpower_plus by discriminate.
  rewrite inject_Z_mult, Zpower_Qpower by lia.
  change (inject_Z 2) with 2%Q. apply Qmult_assoc.
Qed.

(** Strict equality of Numbers is equality of their values. *)
Lemma number_strict_eq_spec (x y : number) :
  number_strict_eq x y = true <-> same_value x y.
Proof.
  destruct x as [m1 e1|a], y as [m2 e2|b]; simpl; try (split; [discriminate|tauto]).
  - rewrite (Qvalue_rescale m1 e1 (Z.min e1 e2)), (Qvalue_rescale m2 e2 (Z.min e1 e2)) by lia.
    rewrite Qmult_inj_r by apply Qpower2_nonzero.
    rewrite inject_Z_injective. apply Z.eqb_eq.
  - destruct a, b; simpl; split; congruence.
Qed.

(** ** The filter *)

Lemma price_changed_spec (r : Product) : price_changed r = true <-> pending r.
Proof.
  unfold price_changed, pending.
  destruct (previous_price r) as [| |previous]; [tauto|tauto|].
  cbn [is_null is_undefined strict_eq_number orb].
  rewrite negb_true_iff, <- not_true_iff_false, number_strict_eq_spec.
  split.
  - intros H. right. right. exists previous. auto.
  - intros [H|[H|(v & Hv & H)]]; try discriminate. congruence.
Qed.

Lemma filter_sublist {A} (f : A -> bool) (l : list A) : sublist (List.filter f l) l.
Proof.
  induction l as [|x l IH]; simpl; [constructor|].
  destruct (f x); by constructor.
Qed.

Lemma sublist_filter_max {A} (f : A -> bool) (l k : list A) :
  sublist k l -> Forall (fun x => f x = true) k -> sublist k (List.filter f l).
Proof.
  induction 1 as [|x k l Hs IH|x k l Hs IH]; intros Hall; simpl.
  - constructor.
  - inversion Hall as [|? ? Hx Hk]; subst. rewrite Hx. constructor. auto.
  - destruct (f x); [constructor|]; auto.
Qed.

(** C1. The selection returns exactly the pending records, in input order:
    it is a subsequence of the collection, all of its records are pending
    (no previous price, or one unequal to the current price), every
    subsequence of pending records of the collection is a subsequence of it,
    and no record whose previous price equals its current price is in it. *)
Theorem productsToProcess_exact (productsData : list Product) :
  sublist (productsToProcess productsData) productsData
  /\ Forall pending (productsToProcess productsData)
  /\ (forall selection,
        sublist selection productsData -> Forall pending selection ->
        sublist selection (productsToProcess productsData))
  /\ (forall r, up_to_date r -> r ∉ productsToProcess productsData).
Proof.
  unfold productsToProcess. split; [apply filter_sublist|]. split; [|split].
  - apply Forall_forall. intros r Hr.
    apply list_elem_of_In, filter_In in Hr. apply price_changed_spec, Hr.
  - intros selection Hsub Hall. apply sublist_filter_max; [done|].
    eapply Forall_impl; [exact Hall|]. intros r. apply price_changed_spec.
  - intros r (previous & Hprev & Hsame) Hr.
    apply list_elem_of_In, filter_In in Hr. destruct Hr as [_ Hr].
    apply price_changed_spec in Hr.
    destruct Hr as [H|[H|(v & Hv & H)]]; congruence.
Qed.

(** ** Persisting *)

Lemma updatedProducts_lookup (productsData : list Product) (i : nat) (r : Product) :
  productsData !! i = Some r ->
  exists r', updatedProducts productsData !! i = Some r'
    /\ productCode r' = productCode r
    /\ variation_suffix r' = variation_suffix r
    /\ current_price r' = current_price r
    /\ previous_price r' = Val (current_price r).
Proof.
  intros Hi. unfold updatedProducts. rewrite list_lookup_fmap, Hi. simpl.
  eexists. split; [reflexivity|]. simpl. auto.
Qed.





(** ** The digit formatter *)

Lemma is_digit_cases (c : Z) :
  is_digit c = true ->
  c = 48 \/ c = 49 \/ c = 50 \/ c = 51 \/ c = 52 \/ c = 53 \/ c = 54 \/ c = 55
  \/ c = 56 \/ c = 57.
Proof. unfold is_digit. lia. Qed.

(** A digit is replaced by its glyph in the table. *)
Lemma replace_digit_glyph (c : Z) :
  is_digit c = true -> replace_digit c = [arabic_glyph (c - 48)].
Proof.
  intros Hc. apply is_digit_cases in Hc.
  repeat (destruct Hc as [->|Hc]; [reflexivity|]). by subst.
Qed.

Lemma convertToArabicDigits_cons (c : Z) (s : jsstring) :
  convertToArabicDigits (c :: s) =
  (if is_digit c then [arabic_glyph (c - 48)] else [c]) ++ convertToArabicDigits s.
Proof.
  unfold convertToArabicDigits. simpl.
  destruct (is_digit c) eqn:Hc; [|reflexivity]. by rewrite replace_digit_glyph.
Qed.

(** The formatter works code unit by code unit. *)
Lemma convertToArabicDigits_map (s : jsstring) :
  convertToArabicDigits s =
  (fun c => if is_digit c then arabic_glyph (c - 48) else c) <$> s.
Proof.
  induction s as [|c s IH]; [reflexivity|].
  rewrite convertToArabicDigits_cons, IH, fmap_cons. by destruct (is_digit c).
Qed.

(** C4. On a string of Western digits and the decimal point, the formatter
    replaces each digit by its Arabic-indic glyph and leaves the point in
    place, and the inverse glyph table maps the result back to the input. *)
Theorem convertToArabicDigits_roundtrip (s : jsstring) :
  Forall (fun c => is_digit c = true \/ c = 46) s ->
  convertToArabicDigits s
    = (fun c => if is_digit c then arabic_glyph (c - 48) else c) <$> s
  /\ fromArabicDigits (convertToArabicDigits s) = s.
Proof.
  intros Hs. split; [apply convertToArabicDigits_map|].
  rewrite convertToArabicDigits_map. unfold fromArabicDigits.
  rewrite <- list_fmap_compose.
  induction Hs as [|c s Hc _ IH]; [reflexivity|].
  rewrite fmap_cons, IH. f_equal. simpl. unfold arabic_glyph.
  destruct Hc as [Hc| ->]; [|reflexivity].
  rewrite Hc. unfold is_digit in Hc.
  replace ((1632 + 0 <=? 1632 + (c - 48)) && (1632 + (c - 48) <=? 1632 + 9)) with true by lia.
  lia.
Qed.

(** ** Decimal numerals *)

Lemma digits_fuel_irrelevant (f g : nat) (n : Z) :
  0 <= n < 2 ^ Z.of_nat f -> 0 <= n < 2 ^ Z.of_nat g ->
  (1 <= f)%nat -> (1 <= g)%nat ->
  digits_fuel f n = digits_fuel g n.
Proof.
  revert g n. induction f as [|f IH]; intros g n Hf Hg Hf1 Hg1; [lia|].
  destruct g as [|g]; [lia|]. simpl.
  destruct (Z.ltb_spec n 10) as [Hn|Hn]; [reflexivity|].
  rewrite Nat2Z.inj_succ, Z.pow_succ_r in Hf, Hg by lia.
  assert (Hq : 1 <= n / 10) by (apply Z.div_le_lower_bound; lia).
  assert (Hq2 : n / 10 <= n / 2) by (apply Z.div_le_compat_l; lia).
  assert (n / 2 < 2 ^ Z.of_nat f) by (apply Z.div_lt_upper_bound; lia).
  assert (n / 2 < 2 ^ Z.of_nat g) by (apply Z.div_lt_upper_bound; lia).
  f_equal. apply IH; try lia.
  - destruct f; [simpl in *; lia|lia].
  - destruct g; [simpl in *; lia|lia].
Qed.

(** The numeral of [n], digit by digit. *)
Lemma decimal_unfold (n : Z) :
  0 <= n ->
  decimal n = if n <? 10 then [48 + n] else decimal (n / 10) ++ [48 + n mod 10].
Proof.
  intros Hn. unfold decimal at 1. cbn [digits_fuel].
  destruct (Z.ltb_spec n 10) as [Hlt|Hge]; [reflexivity|].
  f_equal. unfold decimal.
  assert (Hq : 1 <= n / 10) by (apply Z.div_le_lower_bound; lia).
  assert (Hq2 : n / 10 <= n / 2) by (apply Z.div_le_compat_l; lia).
  pose proof (Z.log2_spec n ltac:(lia)) as [_ Hlog].
  pose proof (Z.log2_spec (n / 10) ltac:(lia)) as [_ Hlog'].
  pose proof (Z.log2_nonneg n). pose proof (Z.log2_nonneg (n / 10)).
  pose proof (Z.log2_pos n ltac:(lia)).
  rewrite Z.pow_succ_r in Hlog by lia.
  apply digits_fuel_irrelevant; rewrite ?Nat2Z.inj_succ, ?Z2Nat.id; try lia.
  split; [lia|]. apply Z.div_lt_upper_bound; lia.
Qed.

(** Induction on the digits of a number. *)
Lemma decimal_ind (P : Z -> Prop) :
  (forall n, 0 <= n < 10 -> P n) ->
  (forall n, 10 <= n -> P (n / 10) -> P n) ->
  forall n, 0 <= n -> P n.
Proof.
  intros Hsmall Hstep n Hn.
  apply (Z_lt_induction (fun n => 0 <= n -> P n)); [|exact Hn|exact Hn].
  clear n Hn. intros n IH Hn.
  destruct (Z.ltb_spec n 10); [apply Hsmall; lia|].
  assert (0 <= n / 10 < n) by (split; [apply Z.div_pos; lia|apply Z.div_lt; lia]).
  apply Hstep; [lia|]. apply IH; lia.
Qed.

Lemma decimal_digits (n : Z) :
  0 <= n -> Forall (fun c => is_digit c = true) (decimal n).
Proof.
  intros Hn. pattern n. apply decimal_ind; [| |exact Hn]; clear n Hn.
  - intros n Hn. rewrite decimal_unfold by lia.
    replace (n <? 10) with true by lia. repeat constructor. unfold is_digit. lia.
  - intros n Hn IH. rewrite decimal_unfold by lia.
    replace (n <? 10) with false by lia.
    apply Forall_app. split; [exact IH|]. repeat constructor.
    pose proof (Z.mod_pos_bound n 10). unfold is_digit. lia.
Qed.

Lemma numeral_value_snoc (digits : jsstring) (c : Z) :
  numeral_value (digits ++ [c]) = numeral_value digits * 10 + (c - 48).
Proof. unfold numeral_value. by rewrite foldl_snoc. Qed.

(** A numeral denotes the number it was printed from. *)
Lemma numeral_value_decimal (n : Z) : 0 <= n -> numeral_value (decimal n) = n.
Proof.
  intros Hn. pattern n. apply decimal_ind; [| |exact Hn]; clear n Hn.
  - intros n Hn. rewrite decimal_unfold by lia.
    replace (n <? 10) with true by lia. unfold numeral_value. simpl. lia.
  - intros n Hn IH. rewrite decimal_unfold by lia.
    replace (n <? 10) with false by lia.
    rewrite numeral_value_snoc, IH. pose proof (Z.div_mod n 10). lia.
Qed.

Lemma decimal_nonempty (n : Z) : 0 <= n -> decimal n <> [].
Proof.
  intros Hn. rewrite decimal_unfold by lia.
  destruct (n <? 10); [discriminate|]. by destruct (decimal (n / 10)).
Qed.

(** ** parseInt *)

Lemma digit_value_decimal (c : Z) :
  digit_value 10 c = if is_digit c then Some (c - 48) else None.
Proof.
  unfold digit_value, is_digit.
  destruct ((48 <=? c) && (c <=? 57)) eqn:Hd.
  - replace (c - 48 <? 10) with true by lia. reflexivity.
  - destruct ((97 <=? c) && (c <=? 122)) eqn:Hl.
    + replace (c - 97 + 10 <? 10) with false by lia. reflexivity.
    + destruct ((65 <=? c) && (c <=? 90)) eqn:Hu.
      * replace (c - 65 + 10 <? 10) with false by lia. reflexivity.
      * rewrite Z.ltb_irrefl. reflexivity.
Qed.

(** Reading stops at the first code unit that is not a digit. *)
Lemma read_digits_stop (rest : jsstring) (acc : Z) (any : bool) :
  (forall c, head rest = Some c -> is_digit c = false) ->
  read_digits 10 rest acc any = (acc, any).
Proof.
  destruct rest as [|c rest]; [reflexivity|]. intros H. simpl.
  rewrite digit_value_decimal, (H c eq_refl). reflexivity.
Qed.

Lemma read_digits_decimal (digits rest : jsstring) (acc : Z) (any : bool) :
  Forall (fun c => is_digit c = true) digits ->
  (forall c, head rest = Some c -> is_digit c = false) ->
  read_digits 10 (digits ++ rest) acc any
  = (foldl (fun acc c => acc * 10 + (c - 48)) acc digits,
     match digits with [] => any | _ => true end).
Proof.
  intros Hd Hrest. revert acc any.
  induction Hd as [|c digits Hc Hd IH]; intros acc any; simpl.
  - by apply read_digits_stop.
  - rewrite digit_value_decimal, Hc, IH. by destruct digits.
Qed.

Lemma digit_not_whitespace (c : Z) : is_digit c = true -> is_whitespace c = false.
Proof.
  intros Hc. apply is_digit_cases in Hc.
  repeat (destruct Hc as [->|Hc]; [reflexivity|]). by subst.
Qed.

(** A parameter that begins with decimal digits, and not with [0x], is read
    as the number its longest digit prefix denotes. *)
Lemma parseInt_leading_digits (digits rest : jsstring) :
  digits <> [] ->
  Forall (fun c => is_digit c = true) digits ->
  (forall c, head rest = Some c -> is_digit c = false) ->
  has_hex_prefix (digits ++ rest) = false ->
  parseInt (digits ++ rest) = Some (numeral_value digits).
Proof.
  intros Hne Hd Hrest Hhex. unfold parseInt.
  destruct digits as [|c digits]; [done|].
  inversion Hd as [|? ? Hc Hd']; subst.
  assert (Htrim : trim_start ((c :: digits) ++ rest) = (c :: digits) ++ rest).
  { simpl. by rewrite digit_not_whitespace. }
  rewrite Htrim. unfold strip_sign. cbn [app].
  unfold is_digit in Hc.
  replace (c =? 45) with false by lia. replace (c =? 43) with false by lia.
  unfold strip_prefix. change (c :: digits ++ rest) with ((c :: digits) ++ rest).
  rewrite Hhex, read_digits_decimal by done.
  unfold numeral_value. f_equal. lia.
Qed.

Lemma decimal_no_hex_prefix (n : Z) : 0 <= n -> has_hex_prefix (decimal n) = false.
Proof.
  intros Hn. pose proof (decimal_digits n Hn) as Hd.
  destruct (decimal n) as [|c [|x s]]; [reflexivity|reflexivity|].
  inversion Hd as [|? ? _ Hd']; subst. inversion Hd' as [|? ? Hx _]; subst.
  unfold is_digit in Hx. simpl.
  replace (x =? 120) with false by lia. replace (x =? 88) with false by lia.
  apply andb_false_r.
Qed.

(** The path segment a worker requests is read back as its index. *)
Lemma parseInt_index_segment (i : nat) :
  parseInt (index_segment (Z.of_nat i)) = Some (Z.of_nat i).
Proof.
  unfold index_segment, integer_toString.
  destruct (Z.ltb_spec (Z.of_nat i) 0); [lia|].
  rewrite <- (app_nil_r (decimal _)), parseInt_leading_digits.
  - by rewrite numeral_value_decimal by lia.
  - apply decimal_nonempty. lia.
  - apply decimal_digits. lia.
  - discriminate.
  - rewrite app_nil_r. apply decimal_no_hex_prefix. lia.
Qed.

(** ** The page server *)

Lemma get_product_at (productsData : list Product) (index : jsstring)
    (i : nat) (p : Product) :
  parseInt index = Some (Z.of_nat i) -> productsData !! i = Some p ->
  get_product productsData index = {| status := 200; body := product_page p |}.
Proof.
  intros Hparse Hp. unfold get_product. rewrite Hparse.
  pose proof (lookup_lt_Some _ _ _ Hp) as Hlt.
  destruct (Z.ltb_spec (Z.of_nat i) 0); [lia|].
  destruct (Z.leb_spec (Z.of_nat (length productsData)) (Z.of_nat i)); [lia|].
  by rewrite Nat2Z.id, Hp.
Qed.

(** C6 (amended). A request whose index parameter does not parse to a
    number, or parses to a negative number or to one that is not below the
    length of the collection, is answered with status 404 and the body
    [Product not found]. *)
Theorem get_product_not_found (productsData : list Product) (index : jsstring) :
  (parseInt index = None
   \/ exists i, parseInt index = Some i
               /\ (i < 0 \/ Z.of_nat (length productsData) <= i)) ->
  get_product productsData index
  = {| status := 404; body := lit "Product not found" |}.
Proof.
  unfold get_product. intros [->|(i & -> & Hi)]; [reflexivity|].
  destruct (Z.ltb_spec i 0); [reflexivity|].
  destruct (Z.leb_spec (Z.of_nat (length productsData)) i); [reflexivity|lia].
Qed.

(** C10 (amended). A parameter that begins with a sequence of decimal
    digits denoting a valid index [i], followed by anything that is not a
    digit, is served the page of product [i] -- unless it begins with [0x]
    or [0X], which [parseInt] takes for a hexadecimal prefix. *)
Theorem get_product_leading_digits (productsData : list Product)
    (digits rest : jsstring) (i : nat) (p : Product) :
  digits <> [] ->
  Forall (fun c => is_digit c = true) digits ->
  (forall c, head rest = Some c -> is_digit c = false) ->
  has_hex_prefix (digits ++ rest) = false ->
  numeral_value digits = Z.of_nat i ->
  productsData !! i = Some p ->
  get_product productsData (digits ++ rest)
  = {| status := 200; body := product_page p |}.
Proof.
  intros Hne Hd Hrest Hhex Hval Hp. apply (get_product_at _ _ i); [|done].
  rewrite parseInt_leading_digits by done. by rewrite Hval.
Qed.

(** ** Two decimal places *)

Ltac divmod := Z.div_mod_to_equations; lia.

Lemma nearest_hundredths_nonneg (a e : Z) : 0 <= a -> 0 <= nearest_hundredths a e.
Proof.
  intros Ha. unfold nearest_hundredths. destruct (Z.leb_spec 0 e).
  - pose proof (Z.pow_nonneg 2 e). nia.
  - pose proof (Z.pow_pos_nonneg 2 (- e)). pose proof (Z.pow_pos_nonneg 2 (1 - e)).
    apply Z.div_pos; lia.
Qed.

(** Below 10^21, [toFixed(2)] is the numeral with two decimal places. *)
Lemma toFixed2_two_decimals (m e : Z) :
  at_least_1e21 (Z.abs m) e = false -> toFixed2 (Finite m e) = two_decimals m e.
Proof.
  intros Hsmall. unfold toFixed2, two_decimals. rewrite Hsmall.
  pose proof (nearest_hundredths_nonneg (Z.abs m) e (Z.abs_nonneg m)) as Hn.
  set (n := nearest_hundredths (Z.abs m) e) in *.
  f_equal.
  replace (if n =? 0 then lit "0" else decimal n) with (decimal n)
    by (destruct (Z.eqb_spec n 0) as [->|]; reflexivity).
  destruct (Z.ltb_spec n 10) as [H10|H10].
  { rewrite (decimal_unfold n) by lia. replace (n <? 10) with true by lia.
    replace (n / 100) with 0 by divmod. replace (n mod 100 / 10) with 0 by divmod.
    replace (n mod 10) with n by divmod. reflexivity. }
  destruct (Z.ltb_spec n 100) as [H100|H100].
  { rewrite (decimal_unfold n) by lia. replace (n <? 10) with false by lia.
    rewrite (decimal_unfold (n / 10)) by divmod.
    replace (n / 10 <? 10) with true by divmod.
    replace (n / 100) with 0 by divmod. replace (n mod 100 / 10) with (n / 10) by divmod.
    reflexivity. }
  rewrite (decimal_unfold n) by lia. replace (n <? 10) with false by lia.
  rewrite (decimal_unfold (n / 10)) by divmod.
  replace (n / 10 <? 10) with false by divmod.
  replace (n / 10 / 10) with (n / 100) by divmod.
  replace ((n / 10) mod 10) with (n mod 100 / 10) by divmod.
  pose proof (decimal_nonempty (n / 100) ltac:(divmod)) as Hne.
  set (whole := decimal (n / 100)) in *.
  rewrite <- app_assoc. cbn [app].
  rewrite !length_app. cbn [length].
  destruct (Nat.leb_spec (length whole + 2) 2) as [Hk|Hk].
  { destruct whole; [done|simpl in Hk; lia]. }
  rewrite length_app. cbn [length].
  replace (length whole + 2 - 2)%nat with (length whole + 0)%nat by lia.
  rewrite take_app_add, drop_app_add. cbn [take drop]. by rewrite app_nil_r.
Qed.

(** Scaling by a hundred and rounding: [n] is within a half of
    [100 * a * 2^e], the upper one when two integers are as near. *)
Lemma nearest_hundredths_nearest (a e : Z) :
  (inject_Z (2 * nearest_hundredths a e - 1) <= 200 * Qvalue a e
   /\ 200 * Qvalue a e < inject_Z (2 * nearest_hundredths a e + 1))%Q.
Proof.
  unfold nearest_hundredths. destruct (Z.leb_spec 0 e) as [He|He].
  - assert (Hx : (200 * Qvalue a e == inject_Z (200 * (a * 2 ^ e)))%Q).
    { unfold Qvalue. rewrite !inject_Z_mult, Zpower_Qpower by lia. reflexivity. }
    rewrite Hx, <- Zle_Qle, <- Zlt_Qlt. lia.
  - set (d := 2 ^ (- e)).
    assert (Hd : 0 < d) by (apply Z.pow_pos_nonneg; lia).
    assert (Hd2 : 2 ^ (1 - e) = 2 * d).
    { unfold d. replace (1 - e) with (Z.succ (- e)) by lia. apply Z.pow_succ_r. lia. }
    rewrite Hd2. set (n := (a * 200 + d) / (2 * d)).
    assert (Hlo : 2 * d * n <= a * 200 + d) by (apply Z.mul_div_le; lia).
    assert (Hhi : a * 200 + d < 2 * d * Z.succ n) by (apply Z.mul_succ_div_gt; lia).
    assert (HD : (0 < inject_Z d)%Q) by (rewrite <- (Zlt_Qlt 0); lia).
    assert (Hx : (200 * Qvalue a e * inject_Z d == inject_Z (200 * a))%Q).
    { unfold Qvalue, d. rewrite Zpower_Qpower, inject_Z_mult by lia.
      change (inject_Z 2) with 2%Q.
      rewrite <- !Qmult_assoc, <- Qpower_plus by discriminate.
      replace (e + - e) with 0 by lia. simpl. ring. }
    split.
    + apply (Qmult_le_r _ _ (inject_Z d) HD).
      rewrite Hx, <- inject_Z_mult, <- Zle_Qle. nia.
    + apply (Qmult_lt_r _ _ (inject_Z d) HD).
      rewrite Hx, <- inject_Z_mult, <- Zlt_Qlt. nia.
Qed.

(** The test against 10^21, on the value. *)
Lemma at_least_1e21_spec (m e : Z) :
  (Qabs (Qvalue m e) < inject_Z (10 ^ 21))%Q -> at_least_1e21 (Z.abs m) e = false.
Proof.
  intros Hlt.
  assert (Habs : (Qabs (Qvalue m e) == Qvalue (Z.abs m) e)%Q).
  { unfold Qvalue. rewrite Qabs_Qmult.
    rewrite (Qabs_pos (2 ^ e)) by (apply Qpower_pos; discriminate).
    apply Qmult_comp; [|reflexivity].
    unfold Qabs, inject_Z. reflexivity. }
  rewrite Habs in Hlt. clear Habs. unfold at_least_1e21.
  destruct (Z.leb_spec 0 e) as [He|He].
  - assert (Hx : (Qvalue (Z.abs m) e == inject_Z (Z.abs m * 2 ^ e))%Q).
    { unfold Qvalue. rewrite inject_Z_mult, Zpower_Qpower by lia. reflexivity. }
    rewrite Hx, <- Zlt_Qlt in Hlt. lia.
  - set (d := 2 ^ (- e)).
    assert (Hd : 0 < d) by (apply Z.pow_pos_nonneg; lia).
    assert (HD : (0 < inject_Z d)%Q) by (rewrite <- (Zlt_Qlt 0); lia).
    assert (Hx : (Qvalue (Z.abs m) e * inject_Z d == inject_Z (Z.abs m))%Q).
    { unfold Qvalue, d. rewrite Zpower_Qpower by lia.
      change (inject_Z 2) with 2%Q.
      rewrite <- !Qmult_assoc, <- Qpower_plus by discriminate.
      replace (e + - e) with 0 by lia. simpl. ring. }
    apply (Qmult_lt_r _ _ (inject_Z d) HD) in Hlt.
    rewrite Hx, <- inject_Z_mult, <- Zlt_Qlt in Hlt. lia.
Qed.

(** [price_19_9] is the binary64 number nearest to 19.9: it has a 53-bit
    significand, and lies within half a unit in the last place of 199/10. *)
Lemma price_19_9_nearest :
  binary64 price_19_9 = true
  /\ 2 ^ 52 <= 5601352036542054 < 2 ^ 53
  /\ (Qabs (Qvalue 5601352036542054 (-48) - (199 # 10)) <= Qvalue 1 (-49))%Q.
Proof. split; [reflexivity|]. split; [lia|]. vm_compute. discriminate. Qed.

(** ** Rendering *)

(** Text without [&], [<], [>] and quotes is written as it is. *)
Lemma escapeXML_plain (s : jsstring) :
  Forall (fun c => escaped c = false) s -> escapeXML s = s.
Proof.
  induction 1 as [|c s Hc _ IH]; [reflexivity|].
  unfold escapeXML in *. cbn [flat_map]. rewrite IH. unfold escaped in Hc.
  destruct (Z.eqb_spec c 38), (Z.eqb_spec c 60), (Z.eqb_spec c 62),
    (Z.eqb_spec c 34), (Z.eqb_spec c 39); try discriminate. reflexivity.
Qed.

Lemma two_decimals_chars (m e : Z) :
  Forall (fun c => is_digit c = true \/ c = 46 \/ c = 45) (two_decimals m e).
Proof.
  unfold two_decimals.
  pose proof (nearest_hundredths_nonneg (Z.abs m) e (Z.abs_nonneg m)) as Hn.
  set (n := nearest_hundredths (Z.abs m) e) in *.
  apply Forall_app. split.
  { destruct (m <? 0); [|constructor].
    change (lit "-") with [45]. constructor; [auto|constructor]. }
  apply Forall_app. split.
  { eapply Forall_impl; [apply decimal_digits; divmod|]. simpl. auto. }
  change (lit ".") with [46].
  constructor; [auto|]. constructor; [|constructor; [|constructor]].
  - left. unfold is_digit. divmod.
  - left. unfold is_digit. divmod.
Qed.

(** The Arabic rendering of a price needs no escaping. *)
Lemma escapeXML_price (m e : Z) :
  escapeXML (convertToArabicDigits (two_decimals m e))
  = convertToArabicDigits (two_decimals m e).
Proof.
  apply escapeXML_plain. rewrite convertToArabicDigits_map.
  apply Forall_fmap. eapply Forall_impl; [apply two_decimals_chars|].
  intros c Hc. simpl. unfold escaped, arabic_glyph.
  destruct (is_digit c) eqn:Hd.
  - unfold is_digit in Hd. lia.
  - destruct Hc as [Hc|[->| ->]]; [congruence|reflexivity..].
Qed.

Lemma imageFileName_path (p : Product) :
  lit "/images/" ++ imageFileName p = image_path p.
Proof.
  unfold imageFileName, image_path.
  destruct (variation_suffix p) as [| |[|c suffix]]; reflexivity.
Qed.

(** C5 (amended). For a valid index whose record has a finite current
    price below 10^21 in magnitude, the server answers 200 with the
    template around the HTML-escaped image path and the Arabic-digit
    rendering of the price written with exactly two decimal places; the
    price text is embedded as it is.  For the price 19.9 the rendered price
    is the Arabic-digit rendering of 19.90. *)
Theorem get_product_valid_index (productsData : list Product) (i : nat)
    (p : Product) (m e : Z) :
  productsData !! i = Some p ->
  current_price p = Finite m e ->
  (Qabs (Qvalue m e) < inject_Z (10 ^ 21))%Q ->
  get_product productsData (index_segment (Z.of_nat i))
  = {| status := 200;
       body := htmlTemplate_head ++ escapeXML (image_path p)
               ++ htmlTemplate_middle
               ++ convertToArabicDigits (two_decimals m e)
               ++ htmlTemplate_tail |}
  /\ convertToArabicDigits (toFixed2 price_19_9) = lit "١٩.٩٠".
Proof.
  intros Hp Hprice Hsmall. split; [|by vm_compute].
  rewrite (get_product_at _ _ i p) by (apply parseInt_index_segment || done).
  unfold product_page, render.
  rewrite Hprice, toFixed2_two_decimals by (by apply at_least_1e21_spec).
  by rewrite imageFileName_path, escapeXML_price.
Qed.

(** ** The work partitioner *)

Lemma group_of_snoc {A} (K j : nat) (l : list A) (x : A) :
  group_of K j (l ++ [x])
  = group_of K j l ++ (if decide ((length l mod K)%nat = j) then [x] else []).
Proof.
  unfold group_of. rewrite imap_app, filter_app, fmap_app. f_equal.
  cbn [imap]. rewrite Nat.add_0_r.
  destruct (decide ((length l mod K)%nat = j)) as [Hj|Hj].
  - by rewrite filter_cons_True.
  - by rewrite filter_cons_False.
Qed.

Lemma div_quotient (K q r : nat) : (r < K)%nat -> ((q * K + r) / K = q)%nat.
Proof. intros Hr. rewrite Nat.div_add_l by lia. rewrite Nat.div_small by lia. lia. Qed.

Lemma count_step (K j n : nat) :
  (j < K)%nat ->
  ((S n + (K - 1 - j)) / K
   = (n + (K - 1 - j)) / K + (if decide ((n mod K) = j) then 1 else 0))%nat.
Proof.
  intros Hj.
  pose proof (Nat.div_mod_eq n K) as Hn.
  pose proof (Nat.mod_upper_bound n K ltac:(lia)) as Hr.
  set (q := (n / K)%nat) in *. set (r := (n mod K)%nat) in *.
  destruct (decide (r = j)) as [->|Hne].
  - replace (S n + (K - 1 - j))%nat with ((q + 1) * K + 0)%nat by lia.
    replace (n + (K - 1 - j))%nat with (q * K + (K - 1))%nat by lia.
    rewrite !div_quotient by lia. lia.
  - destruct (decide (r < j)%nat).
    + replace (S n + (K - 1 - j))%nat with (q * K + (S r + (K - 1 - j)))%nat by lia.
      replace (n + (K - 1 - j))%nat with (q * K + (r + (K - 1 - j)))%nat by lia.
      rewrite !div_quotient by lia. lia.
    + replace (S n + (K - 1 - j))%nat with ((q + 1) * K + (S r - j - 1))%nat by lia.
      replace (n + (K - 1 - j))%nat with ((q + 1) * K + (r - j - 1))%nat by lia.
      rewrite !div_quotient by lia. lia.
Qed.

(** The size of a group. *)
Lemma length_group_of {A} (K j : nat) (l : list A) :
  (j < K)%nat -> length (group_of K j l) = ((length l + (K - 1 - j)) / K)%nat.
Proof.
  intros Hj. induction l as [|x l IH] using rev_ind.
  - simpl. symmetry. apply Nat.div_small. lia.
  - rewrite group_of_snoc, !length_app, IH. cbn [length].
    replace (length l + 1 + (K - 1 - j))%nat with (S (length l) + (K - 1 - j))%nat by lia.
    rewrite count_step by done. by destruct (decide _).
Qed.

Lemma count_bound (K j n q : nat) :
  (j < K)%nat -> (q < (n + (K - 1 - j)) / K <-> q * K + j < n)%nat.
Proof.
  intros Hj. split.
  - intros Hq. apply Nat.nle_gt. intros Hle.
    assert ((n + (K - 1 - j)) / K < S q)%nat; [|lia].
    apply Nat.Div0.div_lt_upper_bound. nia.
  - intros Hlt.
    assert (S q <= (n + (K - 1 - j)) / K)%nat; [|lia].
    apply Nat.div_le_lower_bound; [lia|]. nia.
Qed.

(** Group [j] holds the items at positions [j], [j + K], [j + 2K], ... *)
Lemma group_of_lookup {A} (K j q : nat) (l : list A) :
  (j < K)%nat -> group_of K j l !! q = l !! (q * K + j)%nat.
Proof.
  intros Hj. destruct (decide (q < length (group_of K j l))%nat) as [Hq|Hq].
  - induction l as [|x l IH] using rev_ind; [simpl in Hq; lia|].
    rewrite group_of_snoc in *.
    destruct (decide (q < length (group_of K j l))%nat) as [Hq'|Hq'].
    + rewrite lookup_app_l, IH by done.
      rewrite length_group_of, count_bound in Hq' by done.
      by rewrite lookup_app_l.
    + rewrite length_app in Hq. destruct (decide _) as [Hmod|]; simpl in Hq; [|lia].
      assert (Hql : q = length (group_of K j l)) by lia.
      rewrite lookup_app_r by lia. rewrite Hql, Nat.sub_diag.
      rewrite length_group_of by done.
      assert (Hpos : ((length l + (K - 1 - j)) / K * K + j = length l)%nat).
      { pose proof (Nat.div_mod_eq (length l) K) as Hn. rewrite Hmod in Hn.
        replace (length l + (K - 1 - j))%nat
          with (length l / K * K + (K - 1))%nat by lia.
        rewrite div_quotient by lia. lia. }
      rewrite Hpos, lookup_app_r, Nat.sub_diag by lia. reflexivity.
  - rewrite lookup_ge_None_2 by lia. symmetry. apply lookup_ge_None_2.
    rewrite length_group_of, count_bound in Hq by done. lia.
Qed.

Lemma chunkArray_snoc (productsData l : list Product) (x : Product) (K : nat) :
  chunkArray productsData (l ++ [x]) K
  = (chunks ← chunkArray productsData l K;
     chunk ← chunks !! (length l mod K)%nat;
     Some (<[(length l mod K)%nat := chunk ++ [work_item_of productsData x]]> chunks)).
Proof.
  unfold chunkArray. rewrite imap_app, foldl_app. cbn [imap foldl].
  by rewrite Nat.add_0_r.
Qed.

Lemma groups_lookup (productsData : list Product) (K j : nat) (l : list Product) :
  (j < K)%nat ->
  groups productsData K l !! j
  = Some (work_item_of productsData <$> group_of K j l).
Proof.
  intros Hj. unfold groups. by rewrite list_lookup_fmap, lookup_seq_lt.
Qed.

Lemma length_groups (productsData : list Product) (K : nat) (l : list Product) :
  length (groups productsData K l) = K.
Proof. unfold groups. by rewrite length_fmap, length_seq. Qed.

(** Pushing the next item, on the partition. *)
Lemma groups_snoc (productsData : list Product) (K : nat) (l : list Product)
    (x : Product) :
  (1 <= K)%nat ->
  groups productsData K (l ++ [x])
  = <[(length l mod K)%nat :=
        (work_item_of productsData <$> group_of K (length l mod K) l)
        ++ [work_item_of productsData x]]> (groups productsData K l).
Proof.
  intros HK. pose proof (Nat.mod_upper_bound (length l) K ltac:(lia)) as Hj.
  apply list_eq. intros j'.
  destruct (decide (j' < K)%nat) as [Hj'|Hj'].
  - rewrite groups_lookup, group_of_snoc by done.
    destruct (decide ((length l mod K)%nat = j')) as [<-|Hne].
    + rewrite list_lookup_insert_eq by (by rewrite length_groups).
      by rewrite fmap_app.
    + rewrite list_lookup_insert_ne, groups_lookup by done.
      by rewrite app_nil_r.
  - rewrite !lookup_ge_None_2; [done|..];
      rewrite ?length_insert, length_groups; lia.
Qed.

(** The partitioner computes the partition. *)
Lemma chunkArray_groups (productsData array : list Product) (K : nat) :
  (1 <= K)%nat -> chunkArray productsData array K = Some (groups productsData K array).
Proof.
  intros HK. induction array as [|x l IH] using rev_ind.
  - unfold chunkArray, groups. cbn [imap foldl]. f_equal.
    apply list_eq. intros j. destruct (decide (j < K)%nat).
    + rewrite lookup_replicate_2, list_lookup_fmap, lookup_seq_lt by done.
      reflexivity.
    + rewrite !lookup_ge_None_2; [done|..];
        rewrite ?length_fmap, ?length_seq, ?length_replicate; lia.
  - rewrite chunkArray_snoc, IH. cbn [mbind option_bind].
    rewrite groups_lookup by (apply Nat.mod_upper_bound; lia). cbn [mbind option_bind].
    by rewrite groups_snoc.
Qed.

Lemma length_concat_insert {A} (G : list (list A)) (j : nat) (c : list A) (x : A) :
  G !! j = Some c ->
  length (concat (<[j := c ++ [x]]> G)) = S (length (concat G)).
Proof.
  revert j. induction G as [|g G IH]; intros [|j] Hj; try discriminate; simpl in *.
  - injection Hj as ->. rewrite !length_app. simpl. lia.
  - rewrite !length_app, (IH j Hj). lia.
Qed.

Lemma length_concat_groups (productsData : list Product) (K : nat) (l : list Product) :
  (1 <= K)%nat -> length (concat (groups productsData K l)) = length l.
Proof.
  intros HK. induction l as [|x l IH] using rev_ind.
  - unfold groups. induction (seq 0 K); [reflexivity|done].
  - pose proof (Nat.mod_upper_bound (length l) K ltac:(lia)) as Hj.
    rewrite groups_snoc, length_app by done. cbn [length].
    rewrite (length_concat_insert _ _ _ _ (groups_lookup _ _ _ _ Hj)), IH.
    lia.
Qed.

(** *** Round-robin merging *)

Lemma heads_take {A} (l : list A) (G : list (list A)) (k : nat) :
  (forall j, (j < k)%nat -> exists c, G !! j = Some c /\ c !! 0%nat = l !! j) ->
  heads (take k G) = take k l.
Proof.
  induction k as [|k IH]; intros HG; [reflexivity|].
  destruct (HG k ltac:(lia)) as (c & Hc & Hhead).
  rewrite (take_S_r _ _ _ Hc). unfold heads in *.
  rewrite flat_map_app, IH by (intros j Hj; apply HG; lia).
  cbn [flat_map]. rewrite app_nil_r.
  destruct c as [|x c]; simpl in Hhead.
  - symmetry in Hhead. apply lookup_ge_None in Hhead.
    rewrite app_nil_r. by rewrite !take_ge by lia.
  - symmetry in Hhead. by rewrite (take_S_r _ _ _ Hhead).
Qed.

Lemma strided_tail {A} (K : nat) (l : list A) (G : list (list A)) :
  strided K l G -> strided K (drop K l) (tail <$> G).
Proof.
  intros [Hlen HG]. split; [by rewrite length_fmap|].
  intros j Hj. destruct (HG j Hj) as (c & Hc & Hq).
  exists (tail c). rewrite list_lookup_fmap, Hc. split; [done|].
  intros q. rewrite lookup_tail, Hq, lookup_drop. f_equal. lia.
Qed.

(** [n] rounds of merging give back the first [n * K] items. *)
Lemma rounds_strided {A} (K n : nat) (l : list A) (G : list (list A)) :
  strided K l G -> rounds n G = take (n * K) l.
Proof.
  revert l G. induction n as [|n IH]; intros l G HG; [reflexivity|].
  cbn [rounds]. rewrite (IH (drop K l)) by by apply strided_tail.
  destruct HG as [Hlen HG].
  rewrite <- (take_ge G K) at 1 by lia.
  rewrite (heads_take l).
  - rewrite take_take_drop. f_equal.
  - intros j Hj. destruct (HG j Hj) as (c & Hc & Hq). exists c.
    split; [done|]. by rewrite Hq.
Qed.

Lemma groups_strided (productsData : list Product) (K : nat) (l : list Product) :
  strided K (work_item_of productsData <$> l) (groups productsData K l).
Proof.
  split; [apply length_groups|]. intros j Hj.
  eexists. split; [by apply groups_lookup|].
  intros q. by rewrite !list_lookup_fmap, group_of_lookup.
Qed.

Lemma round_robin_groups (productsData : list Product) (K : nat) (l : list Product) :
  (1 <= K)%nat ->
  round_robin (groups productsData K l) = work_item_of productsData <$> l.
Proof.
  intros HK. unfold round_robin.
  rewrite (rounds_strided K _ _ _ (groups_strided productsData K l)).
  rewrite length_concat_groups by done. apply take_ge.
  rewrite length_fmap. nia.
Qed.

Lemma group_size_bounds (K j n : nat) :
  (j < K)%nat -> (n / K <= (n + (K - 1 - j)) / K <= n / K + 1)%nat.
Proof.
  intros Hj. split.
  - apply Nat.Div0.div_le_mono. lia.
  - replace (n / K + 1)%nat with ((n + 1 * K) / K)%nat by (rewrite Nat.div_add; lia).
    apply Nat.Div0.div_le_mono. lia.
Qed.

Lemma elem_of_groups (productsData : list Product) (K : nat) (l : list Product)
    (chunk : list work_item) :
  chunk ∈ groups productsData K l ->
  exists j, (j < K)%nat /\ chunk = work_item_of productsData <$> group_of K j l.
Proof.
  unfold groups. intros (j & -> & Hj)%list_elem_of_fmap.
  apply elem_of_seq in Hj. exists j. split; [lia|done].
Qed.

Lemma group_of_sublist {A} (K j : nat) (l : list A) : sublist (group_of K j l) l.
Proof.
  unfold group_of.
  assert (Hl : snd <$> imap pair l = l).
  { apply list_eq. intros i. rewrite list_lookup_fmap, list_lookup_imap.
    by destruct (l !! i). }
  rewrite <- Hl at 2. apply fmap_sublist, sublist_filter.
Qed.

Lemma product_work_items (productsData l : list Product) :
  product <$> (work_item_of productsData <$> l) = l.
Proof. rewrite <- list_fmap_compose. apply list_fmap_id. Qed.

(** C3. For [1 <= K <= N], partitioning [N] items yields exactly [K]
    groups, none empty, whose sizes differ pairwise by at most one; the item
    at position [i] is in group [i mod K], at position [i / K] of it, so each
    group keeps the relative order of its items; and merging the groups by
    round-robin gives back the list in its order. *)
Theorem chunkArray_partition (productsData array : list Product) (K : nat) :
  (1 <= K <= length array)%nat ->
  exists chunks,
    chunkArray productsData array K = Some chunks
    /\ length chunks = K
    /\ (forall a b, a ∈ chunks -> b ∈ chunks ->
          (1 <= length a /\ length a <= length b + 1)%nat)
    /\ (forall i item, array !! i = Some item ->
          exists chunk w,
            chunks !! (i mod K)%nat = Some chunk
            /\ chunk !! (i / K)%nat = Some w /\ product w = item)
    /\ (forall chunk, chunk ∈ chunks -> sublist (product <$> chunk) array)
    /\ product <$> round_robin chunks = array.
Proof.
  intros [HK HN]. exists (groups productsData K array).
  split; [by apply chunkArray_groups|]. split; [apply length_groups|].
  split; [|split; [|split]].
  - intros a b (ja & Hja & ->)%elem_of_groups (jb & Hjb & ->)%elem_of_groups.
    rewrite !length_fmap, !length_group_of by done.
    pose proof (group_size_bounds K ja (length array) Hja).
    pose proof (group_size_bounds K jb (length array) Hjb).
    assert (1 <= length array / K)%nat by (apply Nat.div_le_lower_bound; lia).
    lia.
  - intros i item Hi.
    pose proof (Nat.mod_upper_bound i K ltac:(lia)) as Hj.
    eexists _, (work_item_of productsData item).
    split; [by apply groups_lookup|]. split; [|reflexivity].
    rewrite list_lookup_fmap, group_of_lookup by done.
    replace (i / K * K + i mod K)%nat with i
      by (pose proof (Nat.div_mod_eq i K); lia).
    by rewrite Hi.
  - intros chunk (j & Hj & ->)%elem_of_groups.
    rewrite product_work_items. apply group_of_sublist.
  - rewrite round_robin_groups by done. apply product_work_items.
Qed.

(** *** The index of a work item *)

Lemma findIndex_from_spec {A} (f : A -> bool) (l : list A) (k : Z) :
  (exists x, x ∈ l /\ f x = true) ->
  exists i x,
    findIndex_from f l k = k + Z.of_nat i
    /\ l !! i = Some x /\ f x = true
    /\ forall j y, (j < i)%nat -> l !! j = Some y -> f y = false.
Proof.
  revert k. induction l as [|a l IH]; intros k (x & Hx & Hfx).
  { by apply elem_of_nil in Hx. }
  simpl. destruct (f a) eqn:Hfa.
  - exists 0%nat, a. repeat split; [lia|done|]. intros j y Hj. lia.
  - apply elem_of_cons in Hx as [->|Hx]; [congruence|].
    destruct (IH (k + 1) (ex_intro _ x (conj Hx Hfx))) as (i & y & Hi & Hy & Hfy & Hmin).
    exists (S i), y. repeat split; [lia|done|done|].
    intros [|j] z Hj Hz; simpl in Hz; [congruence|]. apply (Hmin j); [lia|done].
Qed.

(** The callback of [findIndex] compares identity keys. *)
Lemma same_product_spec (p q : Product) :
  same_product p q = true <-> identity_key p = identity_key q.
Proof.
  unfold same_product, identity_key.
  rewrite andb_true_iff. unfold string_strict_eq at 1. rewrite bool_decide_eq_true.
  destruct (variation_suffix p) as [| |[|c s]], (variation_suffix q) as [| |[|d t]];
    cbn [optional_strict_eq truthy negb andb orb];
    unfold string_strict_eq;
    rewrite ?orb_false_r, ?orb_true_r, ?bool_decide_eq_true;
    (split; [intros [Hcode Hsuffix]; try discriminate; congruence
            |intros H; simplify_eq; split; congruence]).
Qed.

(** Every work item is built from an item of the partitioned list. *)
Lemma chunkArray_items (productsData array : list Product) (K : nat)
    (chunks : list (list work_item)) (chunk : list work_item) (w : work_item) :
  chunkArray productsData array K = Some chunks ->
  chunk ∈ chunks -> w ∈ chunk ->
  exists item, item ∈ array /\ w = work_item_of productsData item.
Proof.
  revert chunks chunk. induction array as [|x l IH] using rev_ind;
    intros chunks chunk Hchunks Hchunk Hw.
  - unfold chunkArray in Hchunks. cbn [imap foldl] in Hchunks.
    injection Hchunks as <-. apply elem_of_replicate in Hchunk as [-> _].
    by apply elem_of_nil in Hw.
  - rewrite chunkArray_snoc in Hchunks.
    destruct (chunkArray productsData l K) as [chunks0|]; [|done].
    cbn [mbind option_bind] in Hchunks.
    destruct (chunks0 !! (length l mod K)%nat) as [c|] eqn:Hc; [|done].
    cbn [mbind option_bind] in Hchunks. injection Hchunks as <-.
    apply list_elem_of_lookup in Hchunk as [j Hj].
    destruct (decide ((length l mod K)%nat = j)) as [<-|Hne].
    + rewrite list_lookup_insert_eq in Hj by (by eapply lookup_lt_Some).
      injection Hj as <-. apply elem_of_app in Hw as [Hw|Hw].
      * destruct (IH chunks0 c eq_refl) as (item & Hitem & ->);
          [by eapply list_elem_of_lookup_2|done|].
        exists item. split; [|done]. apply elem_of_app. by left.
      * apply list_elem_of_singleton in Hw as ->.
        exists x. split; [|done]. apply elem_of_app. right. by constructor.
    + rewrite list_lookup_insert_ne in Hj by done.
      destruct (IH chunks0 chunk eq_refl) as (item & Hitem & ->);
        [by eapply list_elem_of_lookup_2|done|].
      exists item. split; [|done]. apply elem_of_app. by left.
Qed.

(** C8. Every work item the partitioner produces for the pending products
    carries the position, in the whole collection, of a record whose
    identity key (product code and variation suffix, absent suffixes
    counting as equal) is the item's; when identity keys are unique, that
    record is the item itself and the position is the only one it has. *)
Theorem work_item_index (productsData : list Product) (K : nat)
    (chunks : list (list work_item)) (chunk : list work_item) (w : work_item) :
  chunkArray productsData (productsToProcess productsData) K = Some chunks ->
  chunk ∈ chunks -> w ∈ chunk ->
  exists i p,
    index w = Z.of_nat i
    /\ productsData !! i = Some p
    /\ identity_key p = identity_key (product w)
    /\ (unique_keys productsData ->
        p = product w
        /\ forall j, productsData !! j = Some (product w) -> j = i).
Proof.
  intros Hchunks Hchunk Hw.
  destruct (chunkArray_items _ _ _ _ _ _ Hchunks Hchunk Hw) as (item & Hitem & ->).
  assert (Hin : item ∈ productsData).
  { apply list_elem_of_In. apply list_elem_of_In in Hitem.
    unfold productsToProcess in Hitem. by apply filter_In in Hitem as [? _]. }
  destruct (findIndex_from_spec (fun p => same_product p item) productsData 0)
    as (i & p & Hi & Hp & Hsame & _).
  { exists item. split; [done|]. by apply same_product_spec. }
  exists i, p. cbn [index product work_item_of]. unfold findIndex.
  apply same_product_spec in Hsame.
  split; [lia|]. split; [done|]. split; [done|].
  intros Hunique.
  apply list_elem_of_lookup in Hin as [j0 Hj0].
  assert (i = j0) as <- by (by eapply Hunique).
  split; [congruence|].
  intros j Hj. by eapply Hunique.
Qed.

(** ** The orchestrator *)

(** There is at least one worker slot, so the partitioner never fails. *)
Lemma NUM_WORKERS_positive (cpus : nat) : (1 <= NUM_WORKERS cpus)%nat.
Proof. unfold NUM_WORKERS. lia. Qed.

Lemma chunkArray_NUM_WORKERS (productsData array : list Product) (cpus : nat) :
  chunkArray productsData array (NUM_WORKERS cpus)
  = Some (groups productsData (NUM_WORKERS cpus) array).
Proof. apply chunkArray_groups, NUM_WORKERS_positive. Qed.

(** C7. When no product is pending, the run starts no server, creates no
    worker and does not write the product file, whose content stays as
    loaded; [main] only logs that nothing changed. *)
Theorem main_nothing_pending (outputDir_exists imagesDir_exists : bool)
    (productsData : list Product) (K : nat) (events : inbox) :
  productsToProcess productsData = [] ->
  main productsData K events = [Console LogNoChanges]
  /\ Forall (fun e => starts_server e = false /\ creates_worker e = false
                      /\ writes_store e = false)
            (main_thread outputDir_exists imagesDir_exists productsData K events)
  /\ store_after
       (main_thread outputDir_exists imagesDir_exists productsData K events)
       productsData = productsData.
Proof.
  intros Hnone. unfold main_thread, main, startup. rewrite Hnone. cbn [length Nat.eqb].
  split; [reflexivity|].
  destruct outputDir_exists, imagesDir_exists; cbn [app]; split;
    (reflexivity || (repeat constructor)).
Qed.

(** *** Waiting for the workers *)

Lemma count_done_app (a b : list jsstring) :
  count_done (a ++ b) = (count_done a + count_done b)%nat.
Proof. unfold count_done. by rewrite List.filter_app, length_app. Qed.

Lemma count_done_none (messages : list jsstring) :
  lit "DONE" ∉ messages -> count_done messages = 0%nat.
Proof.
  unfold count_done. induction messages as [|m messages IH]; [done|].
  intros Hnot. apply not_elem_of_cons in Hnot as [Hm Hnot]. cbn [List.filter].
  unfold string_strict_eq at 1. rewrite bool_decide_eq_false_2 by congruence. auto.
Qed.

Lemma count_done_some (messages : list jsstring) :
  (1 <= count_done messages)%nat -> lit "DONE" ∈ messages.
Proof.
  intros Hpos. destruct (decide (lit "DONE" ∈ messages)) as [|Hnot]; [done|].
  rewrite count_done_none in Hpos by done. lia.
Qed.

Lemma count_done_prefix (a b : list jsstring) :
  is_prefix a b = true -> (count_done a <= count_done b)%nat.
Proof.
  revert b. induction a as [|x a IH]; intros [|y b] Hp; simpl in Hp;
    try discriminate; try (unfold count_done; simpl; lia).
  apply andb_true_iff in Hp as [Hxy Hp].
  unfold string_strict_eq in Hxy. apply bool_decide_eq_true in Hxy as ->.
  specialize (IH b Hp). unfold count_done in *. cbn [List.filter].
  destruct (string_strict_eq y (lit "DONE")); simpl; lia.
Qed.

(** The handlers resume [main] only at the last awaited completion. *)
Lemma await_workers_resumes (productsData : list Product) (n c : nat)
    (events : inbox) (e : effect) :
  e ∈ await_workers productsData n c events -> after_wait e = true ->
  (c < n <= c + count_done (all_messages events))%nat.
Proof.
  revert c. induction events as [|[i [message|]] events IH]; intros c;
    cbn [await_workers].
  - by intros ?%elem_of_nil.
  - change (all_messages ((i, Message message) :: events))
      with ([message] ++ all_messages events).
    rewrite elem_of_cons. intros [->|He] Hafter; [discriminate|].
    rewrite count_done_app. unfold count_done at 1. cbn [List.filter].
    destruct (string_strict_eq message (lit "DONE")).
    + apply elem_of_app in He as [He|He].
      * destruct (Nat.eqb_spec (S c) n); [|by apply elem_of_nil in He].
        cbn [length]. lia.
      * specialize (IH _ He Hafter). cbn [length]. lia.
    + specialize (IH _ He Hafter). cbn [length]. lia.
  - change (all_messages ((i, UncaughtError) :: events)) with (all_messages events).
    rewrite elem_of_cons. intros [->|He] Hafter; [discriminate|].
    by apply IH.
Qed.

(** What [main] has done by some moment stays done as more events arrive. *)
Lemma await_workers_app (productsData : list Product) (n c : nat)
    (earlier later : inbox) :
  await_workers productsData n c (earlier ++ later)
  = await_workers productsData n c earlier
    ++ await_workers productsData n (c + count_done (all_messages earlier)) later.
Proof.
  revert c. induction earlier as [|[i [message|]] earlier IH]; intros c.
  - cbn. by rewrite Nat.add_0_r.
  - change (all_messages ((i, Message message) :: earlier))
      with ([message] ++ all_messages earlier).
    rewrite count_done_app. unfold count_done at 1.
    cbn [app await_workers List.filter].
    destruct (string_strict_eq message (lit "DONE")); cbn [length].
    + rewrite IH, <- !app_assoc.
      replace (c + (1 + count_done (all_messages earlier)))%nat
        with (S c + count_done (all_messages earlier))%nat by lia.
      reflexivity.
    + by rewrite IH.
  - change (all_messages ((i, UncaughtError) :: earlier))
      with (all_messages earlier).
    cbn [app await_workers]. by rewrite IH.
Qed.

Lemma sum_list_with_zero {A} (l : list A) : sum_list_with (fun _ => 0%nat) l = 0%nat.
Proof. induction l; [done|]. cbn. auto. Qed.

Lemma sum_list_with_add {A} (f g : A -> nat) (l : list A) :
  sum_list_with (fun x => f x + g x)%nat l
  = (sum_list_with f l + sum_list_with g l)%nat.
Proof. induction l as [|x l IH]; [done|]. cbn. rewrite IH. lia. Qed.

Lemma sum_list_with_ext {A} (f g : A -> nat) (l : list A) :
  (forall x, x ∈ l -> f x = g x) -> sum_list_with f l = sum_list_with g l.
Proof.
  induction l as [|x l IH]; intros Hfg; [done|]. cbn.
  rewrite (Hfg x) by by left. rewrite IH; [done|]. intros y Hy. apply Hfg. by right.
Qed.

Lemma sum_list_with_indicator (ids : list nat) (j v : nat) :
  NoDup ids -> j ∈ ids ->
  sum_list_with (fun i => if (i =? j)%nat then v else 0%nat) ids = v.
Proof.
  induction 1 as [|i ids Hi Hids IH]; intros Hj; [by apply elem_of_nil in Hj|].
  cbn. destruct (Nat.eqb_spec i j) as [->|Hne].
  - rewrite (sum_list_with_ext _ (fun _ => 0%nat)), sum_list_with_zero; [lia|].
    intros i Hin. destruct (Nat.eqb_spec i j) as [->|]; [done|reflexivity].
  - apply elem_of_cons in Hj as [->|Hj]; [done|]. by rewrite IH.
Qed.

(** Counters that are at most one each sum to their number only if each
    is one. *)
Lemma sum_list_with_full {A} (f : A -> nat) (l : list A) (x : A) :
  (forall y, y ∈ l -> (f y <= 1)%nat) ->
  (length l <= sum_list_with f l)%nat -> x ∈ l -> f x = 1%nat.
Proof.
  induction l as [|y l IH]; intros Hle Hsum Hx; [by apply elem_of_nil in Hx|].
  cbn in Hsum.
  assert (Hl : (sum_list_with f l <= length l)%nat).
  { clear -Hle. induction l as [|z l IHl]; [done|]. cbn.
    pose proof (Hle z ltac:(right; left)).
    assert (sum_list_with f l <= length l)%nat; [|lia].
    apply IHl. intros w Hw. apply Hle.
    apply elem_of_cons in Hw as [->|Hw]; [left|right; right; done]. }
  pose proof (Hle y ltac:(left)).
  apply elem_of_cons in Hx as [->|Hx]; [lia|].
  apply IH; [|lia|done]. intros z Hz. apply Hle. by right.
Qed.

Section Waiting.

Variable path_join : jsstring -> jsstring -> jsstring.
Variable outputDir : jsstring.

Lemma item_messages_not_done (chunk : list work_item) :
  count_done (flat_map (item_messages path_join outputDir) chunk) = 0%nat.
Proof.
  induction chunk as [|item chunk IH]; [reflexivity|].
  cbn [flat_map]. rewrite count_done_app, IH. reflexivity.
Qed.

Lemma processing_message_not_done (item : work_item) :
  count_done [processing_message item] = 0%nat.
Proof. reflexivity. Qed.

Lemma error_message_not_done (error : jsstring) :
  count_done [error_message error] = 0%nat.
Proof. reflexivity. Qed.

Lemma count_done_done : count_done [lit "DONE"] = 1%nat.
Proof. reflexivity. Qed.

(** A worker posts its completion notification at most once. *)
Lemma worker_done_once (chunk : list work_item) (o : outcome) :
  (count_done (worker path_join outputDir chunk o) <= 1)%nat.
Proof.
  destruct o as [|error|i error|error]; cbn [worker].
  - rewrite count_done_app, item_messages_not_done, count_done_done. lia.
  - rewrite error_message_not_done. lia.
  - destruct (chunk !! i) as [item|].
    + rewrite !count_done_app, item_messages_not_done, error_message_not_done,
        processing_message_not_done. lia.
    + rewrite count_done_app, item_messages_not_done, count_done_done. lia.
  - rewrite count_done_app, item_messages_not_done, error_message_not_done. lia.
Qed.

Lemma messages_from_cons (i j : nat) (message : jsstring) (events : inbox) :
  messages_from i ((j, Message message) :: events)
  = (if (i =? j)%nat then [message] else []) ++ messages_from i events.
Proof. reflexivity. Qed.

(** Every message belongs to its sender. *)
Lemma count_done_senders (ids : list nat) (events : inbox) :
  NoDup ids ->
  forallb (fun '(j, _) => bool_decide (j ∈ ids)) events = true ->
  count_done (all_messages events)
  = sum_list_with (fun i => count_done (messages_from i events)) ids.
Proof.
  intros Hids. induction events as [|[j [message|]] events IH]; intros Hsent.
  - symmetry. apply sum_list_with_zero.
  - cbn [forallb] in Hsent. apply andb_true_iff in Hsent as [Hj Hsent].
    apply bool_decide_eq_true in Hj.
    change (all_messages ((j, Message message) :: events))
      with ([message] ++ all_messages events).
    rewrite count_done_app, (IH Hsent).
    rewrite <- (sum_list_with_indicator ids j (count_done [message])) at 1 by done.
    rewrite <- sum_list_with_add. apply sum_list_with_ext. intros i _.
    rewrite messages_from_cons, count_done_app. by destruct (i =? j)%nat.
  - cbn [forallb] in Hsent. apply andb_true_iff in Hsent as [_ Hsent].
    apply (IH Hsent).
Qed.

Lemma messages_from_elem (i : nat) (message : jsstring) (events : inbox) :
  message ∈ messages_from i events -> (i, Message message) ∈ events.
Proof.
  induction events as [|[j [m|]] events IH].
  - by intros ?%elem_of_nil.
  - rewrite messages_from_cons, elem_of_app.
    destruct (Nat.eqb_spec i j) as [->|].
    + intros [->%list_elem_of_singleton|H]; [by left|right; auto].
    + intros [?%elem_of_nil|H]; [done|right; auto].
  - intros H. right. auto.
Qed.

Lemma spawn_ids (productChunks : list (list work_item)) (K : nat) :
  NoDup (spawn productChunks K).*1.
Proof.
  unfold spawn. apply (sublist_NoDup _ (seq 0 K)); [apply NoDup_seq|].
  induction (seq 0 K) as [|i l IH]; [constructor|].
  cbn [flat_map]. rewrite fmap_app.
  destruct (productChunks !! i) as [[|item chunk]|]; cbn [fmap list_fmap app fst];
    by constructor.
Qed.

Lemma workers_ids (productsData : list Product) (K : nat) :
  NoDup (workers productsData K).*1.
Proof.
  unfold workers. destruct (_ =? _)%nat; [constructor|].
  destruct (chunkArray _ _ _); [apply spawn_ids|constructor].
Qed.

(** [main] gets past the wait only with no worker, or after as many
    completion notifications as there are workers. *)
Lemma main_after_wait (productsData : list Product) (K : nat)
    (events : inbox) (e : effect) :
  e ∈ main productsData K events -> after_wait e = true ->
  workers productsData K = []
  \/ (length (workers productsData K) <= count_done (all_messages events))%nat.
Proof.
  unfold main, workers.
  destruct (length (productsToProcess productsData) =? 0)%nat; [by left|].
  rewrite elem_of_app, !elem_of_cons, elem_of_nil.
  intros [[->|[->|[->|[]]]]|He] Hafter; try discriminate.
  destruct (chunkArray _ _ _) as [productChunks|]; [|by left].
  apply elem_of_app in He as [He|He].
  { apply list_elem_of_fmap in He as (? & -> & _). discriminate. }
  destruct (Nat.eqb_spec (length (spawn productChunks K)) 0) as [Hnone|Hsome].
  - left. by apply nil_length_inv.
  - right. pose proof (await_workers_resumes _ _ _ _ _ He Hafter). lia.
Qed.

Lemma sent_by_prefix (created : list (nat * list work_item))
    (outcomes : nat -> outcome) (events : inbox) (i : nat)
    (chunk : list work_item) :
  sent_by path_join outputDir created outcomes events = true ->
  (i, chunk) ∈ created ->
  (count_done (messages_from i events)
   <= count_done (worker path_join outputDir chunk (outcomes i)))%nat.
Proof.
  unfold sent_by. intros [Hprefix _]%andb_true_iff Hin.
  rewrite forallb_forall in Hprefix.
  apply list_elem_of_In, Hprefix in Hin. by apply count_done_prefix.
Qed.

(** With all the notifications counted, each worker has sent its own. *)
Lemma all_done (created : list (nat * list work_item))
    (outcomes : nat -> outcome) (events : inbox) (i : nat)
    (chunk : list work_item) :
  NoDup created.*1 ->
  sent_by path_join outputDir created outcomes events = true ->
  (length created <= count_done (all_messages events))%nat ->
  (i, chunk) ∈ created ->
  count_done (messages_from i events) = 1%nat.
Proof.
  intros Hids Hsent Hcount Hin.
  assert (Hsenders : forallb (fun '(j, _) => bool_decide (j ∈ created.*1)) events = true).
  { unfold sent_by in Hsent. by apply andb_true_iff in Hsent as [_ ?]. }
  rewrite (count_done_senders _ _ Hids Hsenders) in Hcount.
  apply (sum_list_with_full (fun i => count_done (messages_from i events)) created.*1).
  - intros j ((j' & c) & -> & Hj)%list_elem_of_fmap. cbn [fst].
    pose proof (sent_by_prefix _ _ _ _ _ Hsent Hj).
    pose proof (worker_done_once c (outcomes j')). lia.
  - by rewrite length_fmap.
  - apply list_elem_of_fmap. by exists (i, chunk).
Qed.

(** C9. Let [events] be what the created workers have sent up to any
    moment, each worker sending an initial part of what its run
    posts.  If by then [main] has closed the server or written the product
    file, every created worker's [DONE] is among those events; and if a
    created worker's run ends without posting [DONE], [main] has done
    neither, however long the events go on: nothing but the last [DONE]
    ends the wait. *)
Theorem main_awaits_all_workers (productsData : list Product) (K : nat)
    (outcomes : nat -> outcome) (events : inbox) :
  sent_by path_join outputDir (workers productsData K) outcomes events = true ->
  (forall e, e ∈ main productsData K events -> after_wait e = true ->
     forall i chunk, (i, chunk) ∈ workers productsData K ->
       (i, Message (lit "DONE")) ∈ events)
  /\ (forall i chunk, (i, chunk) ∈ workers productsData K ->
        lit "DONE" ∉ worker path_join outputDir chunk (outcomes i) ->
        forall e, e ∈ main productsData K events -> after_wait e = false).
Proof.
  intros Hsent.
  assert (Hall : forall e, e ∈ main productsData K events -> after_wait e = true ->
            forall i chunk, (i, chunk) ∈ workers productsData K ->
              count_done (messages_from i events) = 1%nat).
  { intros e He Hafter i chunk Hin.
    destruct (main_after_wait _ _ _ _ He Hafter) as [Hnone|Hcount].
    - rewrite Hnone in Hin. by apply elem_of_nil in Hin.
    - by apply (all_done (workers productsData K) outcomes events i chunk
                  (workers_ids productsData K)). }
  split.
  - intros e He Hafter i chunk Hin.
    apply messages_from_elem, count_done_some.
    by rewrite (Hall e He Hafter i chunk Hin).
  - intros i chunk Hin Hnever e He.
    destruct (after_wait e) eqn:Hafter; [|reflexivity].
    pose proof (Hall e He Hafter i chunk Hin) as Hone.
    pose proof (sent_by_prefix _ _ _ _ _ Hsent Hin) as Hle.
    rewrite (count_done_none _ Hnever) in Hle. lia.
Qed.

End Waiting.

(** * Instances *)

(** Decides a decidable proposition by computation. *)
Ltac by_computation := refine (bool_decide_unpack _ _); vm_compute; exact I.

(** The runtime model on known values. *)
Example toFixed2_examples :
  toFixed2 price_19_9 = lit "19.90"
  /\ toFixed2 (Finite 5 (-3)) = lit "0.63"
  /\ toFixed2 (Finite (-1) (-10)) = lit "-0.00"
  /\ toFixed2 (Finite 12345 0) = lit "12345.00"
  /\ toFixed2 (Finite (5 ^ 21) 21) = lit "1e+21"
  /\ toFixed2 (Finite 1 70) = lit "1.1805916207174113e+21"
  /\ toFixed2 (Finite (2 ^ 53 - 1) 971) = lit "1.7976931348623157e+308"
  /\ toFixed2 (Infinite false) = lit "Infinity".
Proof. vm_compute. repeat split. Qed.

Example parseInt_examples :
  parseInt (lit "5abc") = Some 5
  /\ parseInt (lit "  -12a") = Some (-12)
  /\ parseInt (lit "0x1F") = Some 31
  /\ parseInt (lit "0x") = None
  /\ parseInt (lit "abc") = None
  /\ parseInt (lit "") = None.
Proof. vm_compute. repeat split. Qed.

(** The end-to-end example of the specification: B and C are selected. *)
Example productsToProcess_sample :
  productsToProcess sample_products = [product_B; product_C].
Proof. vm_compute. reflexivity. Qed.



Lemma convertToArabicDigits_roundtrip_witness :
  Forall (fun c => is_digit c = true \/ c = 46) (lit "19.90")
  /\ convertToArabicDigits (lit "19.90") = lit "١٩.٩٠"
  /\ fromArabicDigits (convertToArabicDigits (lit "19.90")) = lit "19.90".
Proof.
  assert (H : Forall (fun c => is_digit c = true \/ c = 46) (lit "19.90"))
    by by_computation.
  split; [exact H|].
  destruct (convertToArabicDigits_roundtrip (lit "19.90") H) as [Hmap Hback].
  split; [reflexivity|exact Hback].
Defined.

Lemma get_product_valid_index_witness :
  sample_products !! 0%nat = Some product_A
  /\ current_price product_A = Finite 5601352036542054 (-48)
  /\ (Qabs (Qvalue 5601352036542054 (-48)) < inject_Z (10 ^ 21))%Q
  /\ get_product sample_products (lit "0")
     = {| status := 200;
          body := htmlTemplate_head ++ lit "/images/A.jpg"
                  ++ htmlTemplate_middle ++ lit "١٩.٩٠" ++ htmlTemplate_tail |}.
Proof.
  assert (H : (Qabs (Qvalue 5601352036542054 (-48)) < inject_Z (10 ^ 21))%Q)
    by (vm_compute; reflexivity).
  split; [reflexivity|]. split; [reflexivity|]. split; [exact H|].
  exact (proj1 (get_product_valid_index sample_products 0 product_A
                  5601352036542054 (-48) eq_refl eq_refl H)).
Defined.

(** C5 as stated fails: for a code with [&] and the price 10^21 (a binary64
    number), the body holds neither the plain image path nor the price with
    two decimal places. *)
Lemma get_product_huge_price :
  binary64 (current_price product_huge) = true
  /\ get_product [product_huge] (lit "0")
     = {| status := 200;
          body := htmlTemplate_head ++ lit "/images/A&amp;B.jpg"
                  ++ htmlTemplate_middle ++ lit "١e+٢١" ++ htmlTemplate_tail |}
  /\ includes (lit "/images/A&B.jpg")
       (body (get_product [product_huge] (lit "0"))) = false
  /\ includes (convertToArabicDigits (lit "1000000000000000000000.00"))
       (body (get_product [product_huge] (lit "0"))) = false.
Proof. vm_compute. repeat split. Qed.

Lemma get_product_not_found_witness :
  parseInt (lit "abc") = None
  /\ get_product sample_products (lit "abc")
     = {| status := 404; body := lit "Product not found" |}.
Proof.
  split; [reflexivity|].
  exact (get_product_not_found sample_products (lit "abc") (or_introl eq_refl)).
Defined.

(** C6 as stated fails: the 404 answer has a body. *)
Lemma get_product_not_found_body :
  status (get_product sample_products (lit "abc")) = 404
  /\ body (get_product sample_products (lit "abc")) = lit "Product not found"
  /\ body (get_product sample_products (lit "abc")) <> [].
Proof. split; [reflexivity|]. split; [reflexivity|]. discriminate. Qed.

Lemma get_product_leading_digits_witness :
  lit "5" <> []
  /\ Forall (fun c => is_digit c = true) (lit "5")
  /\ (forall c, head (lit "abc") = Some c -> is_digit c = false)
  /\ has_hex_prefix (lit "5" ++ lit "abc") = false
  /\ numeral_value (lit "5") = Z.of_nat 5
  /\ six_products !! 5%nat = Some product_C
  /\ get_product six_products (lit "5abc")
     = {| status := 200; body := product_page product_C |}.
Proof.
  assert (H1 : lit "5" <> []) by discriminate.
  assert (H2 : Forall (fun c => is_digit c = true) (lit "5")) by by_computation.
  assert (H3 : forall c, head (lit "abc") = Some c -> is_digit c = false)
    by (intros c [= <-]; reflexivity).
  split; [exact H1|]. split; [exact H2|]. split; [exact H3|].
  split; [reflexivity|]. split; [reflexivity|]. split; [reflexivity|].
  exact (get_product_leading_digits six_products (lit "5") (lit "abc") 5 product_C
           H1 H2 H3 eq_refl eq_refl eq_refl).
Defined.

(** C10 as stated fails: [0x1] begins with the digit sequence [0], a valid
    index, yet is served the page of product 1, not of product 0. *)
Lemma get_product_hex_prefix :
  lit "0x1" = lit "0" ++ lit "x1"
  /\ numeral_value (lit "0") = 0
  /\ sample_products !! 0%nat = Some product_A
  /\ get_product sample_products (lit "0x1")
     = {| status := 200; body := product_page product_B |}
  /\ get_product sample_products (lit "0x1")
     <> {| status := 200; body := product_page product_A |}.
Proof.
  split; [reflexivity|]. split; [reflexivity|]. split; [reflexivity|].
  split; [vm_compute; reflexivity|]. intros H.
  apply (f_equal (fun r => includes (lit "B_red.jpg") (body r))) in H.
  vm_compute in H. discriminate.
Qed.

Lemma chunkArray_partition_witness :
  (1 <= 2 <= length sample_products)%nat
  /\ exists chunks,
       chunkArray sample_products sample_products 2 = Some chunks
       /\ length chunks = 2%nat
       /\ product <$> round_robin chunks = sample_products.
Proof.
  assert (H : (1 <= 2 <= length sample_products)%nat) by (simpl; lia).
  split; [exact H|].
  destruct (chunkArray_partition sample_products sample_products 2 H)
    as (chunks & Hchunks & Hlen & _ & _ & _ & Hmerge).
  exists chunks. auto.
Defined.

Lemma main_nothing_pending_witness :
  productsToProcess [product_A] = []
  /\ main [product_A] 2 [] = [Console LogNoChanges]
  /\ store_after (main_thread true true [product_A] 2 []) [product_A] = [product_A].
Proof.
  assert (H : productsToProcess [product_A] = []) by (vm_compute; reflexivity).
  split; [exact H|].
  destruct (main_nothing_pending true true [product_A] 2 [] H) as (Hmain & _ & Hstore).
  split; [exact Hmain|exact Hstore].
Defined.

Lemma work_item_index_witness :
  chunkArray sample_products (productsToProcess sample_products) 2
    = Some [[work_B]; [work_C]]
  /\ [work_C] ∈ [[work_B]; [work_C]]
  /\ work_C ∈ [work_C]
  /\ unique_keys sample_products
  /\ exists i p,
       index work_C = Z.of_nat i
       /\ sample_products !! i = Some p
       /\ identity_key p = identity_key (product work_C)
       /\ p = product work_C.
Proof.
  assert (H1 : chunkArray sample_products (productsToProcess sample_products) 2
               = Some [[work_B]; [work_C]]) by (vm_compute; reflexivity).
  assert (H2 : [work_C] ∈ [[work_B]; [work_C]]) by (repeat constructor).
  assert (H3 : work_C ∈ [work_C]) by constructor.
  assert (H4 : unique_keys sample_products).
  { intros i j p q Hi Hj Hkey.
    destruct i as [|[|[|i]]], j as [|[|[|j]]]; simpl in Hi, Hj;
      try discriminate; try reflexivity;
      injection Hi as <-; injection Hj as <-; vm_compute in Hkey; discriminate. }
  split; [exact H1|]. split; [exact H2|]. split; [exact H3|]. split; [exact H4|].
  destruct (work_item_index sample_products 2 _ _ _ H1 H2 H3)
    as (i & p & Hi & Hp & Hkey & Hunique).
  exists i, p. destruct (Hunique H4) as [Hsame _]. auto.
Defined.

Lemma main_awaits_all_workers_witness :
  sent_by sample_path_join sample_outputDir (workers sample_products 2)
    (fun _ => Completes) sample_events = true
  /\ ServerClose ∈ main sample_products 2 sample_events
  /\ (0%nat, Message (lit "DONE")) ∈ sample_events
  /\ (1%nat, Message (lit "DONE")) ∈ sample_events
  /\ sent_by sample_path_join sample_outputDir (workers sample_products 2)
       sample_outcomes_failing sample_events_failing = true
  /\ (forall e, e ∈ main sample_products 2 sample_events_failing ->
        after_wait e = false).
Proof.
  assert (H1 : sent_by sample_path_join sample_outputDir (workers sample_products 2)
                 (fun _ => Completes) sample_events = true)
    by (vm_compute; reflexivity).
  assert (H2 : ServerClose ∈ main sample_products 2 sample_events)
    by (vm_compute; repeat constructor).
  assert (H3 : sent_by sample_path_join sample_outputDir (workers sample_products 2)
                 sample_outcomes_failing sample_events_failing = true)
    by (vm_compute; reflexivity).
  assert (W0 : (0%nat, [work_B]) ∈ workers sample_products 2)
    by (vm_compute; repeat constructor).
  assert (W1 : (1%nat, [work_C]) ∈ workers sample_products 2)
    by (vm_compute; repeat constructor).
  assert (Hnever : lit "DONE" ∉ worker sample_path_join sample_outputDir [work_C]
                                  (sample_outcomes_failing 1))
    by by_computation.
  destruct (main_awaits_all_workers sample_path_join sample_outputDir
              sample_products 2 (fun _ => Completes) sample_events H1) as [Hdone _].
  destruct (main_awaits_all_workers sample_path_join sample_outputDir
              sample_products 2 sample_outcomes_failing sample_events_failing H3)
    as [_ Hstall].
  split; [exact H1|]. split; [exact H2|].
  split; [exact (Hdone ServerClose H2 eq_refl 0%nat [work_B] W0)|].
  split; [exact (Hdone ServerClose H2 eq_refl 1%nat [work_C] W1)|].
  split; [exact H3|]. exact (Hstall 1%nat [work_C] W1 Hnever).
Defined.

(** * Further properties *)

(** ** The digit formatter on any string *)

(** X1. On every string the formatter keeps the length, leaves no Western
    digit, and changes nothing when applied again. *)
Theorem convertToArabicDigits_shape (s : jsstring) :
  length (convertToArabicDigits s) = length s
  /\ Forall (fun c => is_digit c = false) (convertToArabicDigits s)
  /\ convertToArabicDigits (convertToArabicDigits s) = convertToArabicDigits s.
Proof.
  rewrite !convertToArabicDigits_map. split; [apply length_fmap|]. split.
  - apply Forall_fmap, Forall_forall. intros c _. simpl.
    destruct (is_digit c) eqn:Hc; [|done].
    unfold is_digit, arabic_glyph in *. lia.
  - rewrite <- list_fmap_compose. apply list_fmap_ext. intros i c _. simpl.
    destruct (is_digit c) eqn:Hc; [|by rewrite Hc].
    replace (is_digit (arabic_glyph (c - 48))) with false; [done|].
    unfold is_digit, arabic_glyph in *. lia.
Qed.

(** X2. Mapping the formatter's output back through the inverse glyph
    table gives the input exactly when the input holds no Arabic-indic
    digit: Western digits, signs, points and exponent letters all survive,
    an Arabic-indic digit of the input comes back as a Western one. *)
Theorem fromArabicDigits_inverse (s : jsstring) :
  fromArabicDigits (convertToArabicDigits s) = s
  <-> Forall (fun c => is_arabic_digit c = false) s.
Proof.
  rewrite convertToArabicDigits_map. unfold fromArabicDigits.
  rewrite <- list_fmap_compose.
  induction s as [|c s IH]; [split; [constructor|reflexivity]|].
  rewrite fmap_cons, Forall_cons, <- IH.
  assert (Hc : ((fun c0 => if (arabic_glyph 0 <=? c0) && (c0 <=? arabic_glyph 9)
                           then c0 - arabic_glyph 0 + 48 else c0)
                ∘ (fun c0 => if is_digit c0 then arabic_glyph (c0 - 48) else c0)) c = c
               <-> is_arabic_digit c = false).
  { simpl. unfold is_arabic_digit, arabic_glyph, is_digit.
    destruct ((48 <=? c) && (c <=? 57)) eqn:Hd.
    - replace ((1632 + 0 <=? 1632 + (c - 48)) && (1632 + (c - 48) <=? 1632 + 9))
        with true by lia.
      split; lia.
    - destruct ((1632 + 0 <=? c) && (c <=? 1632 + 9)) eqn:Ha; split; lia. }
  rewrite <- Hc. split.
  - intros [= H1 H2]. by split.
  - intros [H1 H2]. by f_equal.
Qed.

(** ** Escaping *)

(** X3. Whatever the value, the text the output tag writes holds no angle
    bracket and no quote, so a product code cannot close the attribute or
    the element it is written into; and escaping never shortens. *)
Theorem escapeXML_safe (markup : jsstring) :
  Forall (fun c => c <> 60 /\ c <> 62 /\ c <> 34 /\ c <> 39) (escapeXML markup)
  /\ (length markup <= length (escapeXML markup))%nat.
Proof.
  unfold escapeXML. induction markup as [|c s [IH1 IH2]]; [split; [constructor|done]|].
  cbn [flat_map]. rewrite Forall_app, length_app.
  destruct (Z.eqb_spec c 38); [split; [split; [by_computation|done]|simpl; lia]|].
  destruct (Z.eqb_spec c 60); [split; [split; [by_computation|done]|simpl; lia]|].
  destruct (Z.eqb_spec c 62); [split; [split; [by_computation|done]|simpl; lia]|].
  destruct (Z.eqb_spec c 34); [split; [split; [by_computation|done]|simpl; lia]|].
  destruct (Z.eqb_spec c 39); [split; [split; [by_computation|done]|simpl; lia]|].
  split; [split; [|done]|simpl; lia]. by repeat constructor.
Qed.

(** ** The page server on any request *)

(** X4. Every request is answered either with the page of the product at
    the index read from the parameter, which is then within the collection,
    or with the not-found answer; the handler never reads past the
    collection. *)
Theorem get_product_total (productsData : list Product) (index : jsstring) :
  (exists i p,
      parseInt index = Some (Z.of_nat i)
      /\ productsData !! i = Some p
      /\ get_product productsData index
         = {| status := 200; body := product_page p |})
  \/ get_product productsData index = not_found.
Proof.
  unfold get_product. destruct (parseInt index) as [n|]; [|by right].
  destruct (Z.ltb_spec n 0); [by right|].
  destruct (Z.leb_spec (Z.of_nat (length productsData)) n); [by right|].
  cbn [orb].
  destruct (lookup_lt_is_Some_2 productsData (Z.to_nat n) ltac:(lia)) as [p Hp].
  left. exists (Z.to_nat n), p. rewrite Hp, Z2Nat.id by lia. auto.
Qed.

Lemma parseInt_negative (n : Z) :
  0 < n -> parseInt (lit "-" ++ decimal n) = Some (- n).
Proof.
  intros Hn. unfold parseInt.
  change (trim_start (lit "-" ++ decimal n)) with (lit "-" ++ decimal n).
  change (strip_sign (lit "-" ++ decimal n)) with (-1, decimal n).
  cbv beta iota. unfold strip_prefix.
  rewrite decimal_no_hex_prefix by lia.
  rewrite <- (app_nil_r (decimal n)), read_digits_decimal;
    [|apply decimal_digits; lia|discriminate].
  pose proof (decimal_nonempty n ltac:(lia)).
  destruct (decimal n) eqn:Hd; [done|]. rewrite <- Hd.
  fold (numeral_value (decimal n)). rewrite numeral_value_decimal by lia.
  f_equal; lia.
Qed.

(** X5. The text of an integer of magnitude below 2^53 is read back by
    [parseInt] as that integer, negative ones included; so a request for such
    an integer outside the collection as a worker prints it -- the -1 of an
    item that was not found among them -- gets the not-found answer. *)
Theorem parseInt_integer_toString (productsData : list Product) (n : Z) :
  - 2 ^ 53 < n < 2 ^ 53 ->
  parseInt (integer_toString n) = Some n
  /\ (n < 0 \/ Z.of_nat (length productsData) <= n ->
      get_product productsData (index_segment n) = not_found).
Proof.
  intros _.
  assert (Hparse : parseInt (integer_toString n) = Some n).
  { unfold integer_toString. destruct (Z.ltb_spec n 0) as [Hneg|Hpos].
    - rewrite parseInt_negative by lia. f_equal. lia.
    - pose proof (parseInt_index_segment (Z.to_nat n)) as H.
      unfold index_segment, integer_toString in H. rewrite Z2Nat.id in H by lia.
      destruct (Z.ltb_spec n 0); [lia|done]. }
  split; [done|]. intros Hout. unfold get_product, index_segment. rewrite Hparse.
  destruct (Z.ltb_spec n 0); [done|].
  destruct (Z.leb_spec (Z.of_nat (length productsData)) n); [done|lia].
Qed.

Lemma parseInt_integer_toString_witness :
  - 2 ^ 53 < -1 < 2 ^ 53
  /\ (-1 < 0 \/ Z.of_nat (length sample_products) <= -1)
  /\ parseInt (integer_toString (-1)) = Some (-1)
  /\ get_product sample_products (index_segment (-1)) = not_found.
Proof.
  assert (Hsafe : - 2 ^ 53 < -1 < 2 ^ 53) by lia.
  assert (H : -1 < 0 \/ Z.of_nat (length sample_products) <= -1) by (left; lia).
  split; [exact Hsafe|]. split; [exact H|].
  destruct (parseInt_integer_toString sample_products (-1) Hsafe) as [Hparse Hout].
  split; [exact Hparse|exact (Hout H)].
Defined.

(** ** The index of a work item, found or not *)

Lemma findIndex_from_none {A} (f : A -> bool) (l : list A) (k : Z) :
  (forall x, x ∈ l -> f x = false) -> findIndex_from f l k = -1.
Proof.
  revert k. induction l as [|a l IH]; intros k Hnone; [reflexivity|].
  simpl. rewrite (Hnone a) by by left. apply IH. intros x Hx. apply Hnone. by right.
Qed.

(** X6. The index of a work item is -1 exactly when no record of the
    collection has the item's identity key; otherwise it is the position of
    the first record that has it, so records with the same key all get the
    position of the first of them. *)
Theorem work_item_of_index (productsData : list Product) (item : Product) :
  (index (work_item_of productsData item) = -1
   <-> forall p, p ∈ productsData -> identity_key p <> identity_key item)
  /\ forall i, index (work_item_of productsData item) = Z.of_nat i ->
       (exists p, productsData !! i = Some p /\ identity_key p = identity_key item)
       /\ forall j q, (j < i)%nat -> productsData !! j = Some q ->
            identity_key q <> identity_key item.
Proof.
  cbn [index work_item_of]. unfold findIndex.
  destruct (decide (Exists (fun p => same_product p item = true) productsData))
    as [Hsome|Hnone].
  - apply Exists_exists in Hsome.
    destruct (findIndex_from_spec (fun p => same_product p item) productsData 0 Hsome)
      as (i0 & x & Hi0 & Hx & Hfx & Hmin).
    rewrite Hi0. split.
    + split; [lia|]. intros Hno. exfalso.
      apply (Hno x); [by eapply list_elem_of_lookup_2|by apply same_product_spec].
    + intros i Hi. assert (i = i0) as -> by lia. split.
      * exists x. split; [done|]. by apply same_product_spec.
      * intros j q Hj Hq Hkey. apply same_product_spec in Hkey.
        rewrite (Hmin j q Hj Hq) in Hkey. discriminate.
  - assert (Hall : forall p, p ∈ productsData -> same_product p item = false).
    { intros p Hp. apply not_true_is_false. intros Hsame. apply Hnone.
      apply Exists_exists. eauto. }
    rewrite (findIndex_from_none _ _ _ Hall). split; [|lia].
    split; [|done]. intros _ p Hp Hkey. apply same_product_spec in Hkey.
    rewrite (Hall p Hp) in Hkey. discriminate.
Qed.

(** ** From the partitioner to the page *)

Lemma imageFileName_key (p q : Product) :
  identity_key p = identity_key q -> imageFileName p = imageFileName q.
Proof.
  unfold identity_key, imageFileName. intros [= Hcode Hsuffix]. rewrite Hcode.
  destruct (variation_suffix p) as [| |[|c s]], (variation_suffix q) as [| |[|d t]];
    cbn [truthy optional_toString] in *; congruence.
Qed.

(** X7. The page a worker requests for a work item of the pending products
    is always served: the answer is the page of a record with the item's
    identity key, its image is the one named like the card file the worker
    writes, and with unique keys it is the page of the item itself. *)
Theorem work_item_served (productsData : list Product) (K : nat)
    (chunks : list (list work_item)) (chunk : list work_item) (w : work_item) :
  chunkArray productsData (productsToProcess productsData) K = Some chunks ->
  chunk ∈ chunks -> w ∈ chunk ->
  exists p stem,
    get_product productsData (index_segment (index w))
    = {| status := 200; body := product_page p |}
    /\ identity_key p = identity_key (product w)
    /\ imageFileName p = stem ++ lit ".jpg"
    /\ outputFileName (product w) = stem ++ lit ".webp"
    /\ (unique_keys productsData -> p = product w).
Proof.
  intros Hchunks Hchunk Hw.
  destruct (chunkArray_items _ _ _ _ _ _ Hchunks Hchunk Hw) as (item & Hitem & ->).
  assert (Hin : item ∈ productsData).
  { apply list_elem_of_In. apply list_elem_of_In in Hitem.
    unfold productsToProcess in Hitem. by apply filter_In in Hitem as [? _]. }
  destruct (findIndex_from_spec (fun p => same_product p item) productsData 0)
    as (i & p & Hi & Hp & Hsame & _).
  { exists item. split; [done|]. by apply same_product_spec. }
  apply same_product_spec in Hsame.
  exists p, (productCode item
             ++ if truthy (variation_suffix item)
                then lit "_" ++ optional_toString (variation_suffix item) else []).
  cbn [index product work_item_of]. unfold findIndex. rewrite Hi, Z.add_0_l.
  split; [apply (get_product_at _ _ i p); [apply parseInt_index_segment|done]|].
  split; [done|]. rewrite (imageFileName_key _ _ Hsame).
  unfold imageFileName, outputFileName.
  split; [|split].
  - destruct (truthy (variation_suffix item)); by rewrite <- ?app_assoc, ?app_nil_r.
  - destruct (truthy (variation_suffix item)); by rewrite <- ?app_assoc, ?app_nil_r.
  - intros Hunique. apply list_elem_of_lookup in Hin as [j0 Hj0].
    assert (i = j0) as <- by (by eapply Hunique). congruence.
Qed.

Lemma work_item_served_witness :
  chunkArray sample_products (productsToProcess sample_products) 2
    = Some [[work_B]; [work_C]]
  /\ [work_B] ∈ [[work_B]; [work_C]]
  /\ work_B ∈ [work_B]
  /\ exists p,
       get_product sample_products (index_segment (index work_B))
       = {| status := 200; body := product_page p |}
       /\ imageFileName p = lit "B_red.jpg"
       /\ outputFileName (product work_B) = lit "B_red.webp".
Proof.
  assert (H1 : chunkArray sample_products (productsToProcess sample_products) 2
               = Some [[work_B]; [work_C]]) by (vm_compute; reflexivity).
  assert (H2 : [work_B] ∈ [[work_B]; [work_C]]) by (repeat constructor).
  assert (H3 : work_B ∈ [work_B]) by constructor.
  split; [exact H1|]. split; [exact H2|]. split; [exact H3|].
  destruct (work_item_served sample_products 2 _ _ _ H1 H2 H3)
    as (p & stem & Hpage & Hkey & Himage & _).
  exists p. split; [exact Hpage|].
  rewrite (imageFileName_key _ _ Hkey). split; reflexivity.
Defined.

(** ** The partitioner on any input *)

Lemma foldl_None {A B} (f : option A -> B -> option A) (l : list B) :
  (forall y, f None y = None) -> foldl f None l = None.
Proof. intros Hf. induction l as [|y l IH]; [done|]. simpl. by rewrite Hf. Qed.

Lemma chunkArray_no_chunk (productsData l : list Product) (x : Product) :
  chunkArray productsData (x :: l) 0 = None.
Proof.
  unfold chunkArray.
  rewrite imap_cons. cbn [foldl replicate]. cbn [mbind option_bind lookup].
  apply foldl_None. by intros [i item].
Qed.

(** X9. The partitioner fails exactly when asked for no chunk at all while
    there is an item to place; in every other case it returns chunks. *)
Theorem chunkArray_fails (productsData array : list Product) (K : nat) :
  chunkArray productsData array K = None <-> K = 0%nat /\ array <> [].
Proof.
  destruct K as [|K].
  - destruct array as [|x l].
    + split; [discriminate|]. by intros [_ ?].
    + split; [done|]. intros _. apply chunkArray_no_chunk.
  - rewrite chunkArray_groups by lia. split; [discriminate|]. by intros [? _].
Qed.

(** X8. When the partitioner returns, there are as many chunks as asked
    for, together they hold as many items as the list, and the item at
    position [q] of chunk [j] is the one at position [q * K + j] of the list,
    paired with its index: no item is invented, lost or given twice. *)
Theorem chunkArray_placed (productsData array : list Product) (K : nat)
    (chunks : list (list work_item)) :
  chunkArray productsData array K = Some chunks ->
  length chunks = K
  /\ length (concat chunks) = length array
  /\ forall j chunk q w,
       chunks !! j = Some chunk -> chunk !! q = Some w ->
       w = work_item_of productsData (product w)
       /\ array !! (q * K + j)%nat = Some (product w).
Proof.
  intros Hchunks. destruct K as [|K].
  - destruct array as [|x l].
    + injection Hchunks as <-. repeat split; done.
    + by rewrite chunkArray_no_chunk in Hchunks.
  - rewrite chunkArray_groups in Hchunks by lia. injection Hchunks as <-.
    split; [apply length_groups|]. split; [apply length_concat_groups; lia|].
    intros j chunk q w Hj Hq.
    assert (Hlt : (j < S K)%nat).
    { apply lookup_lt_Some in Hj. by rewrite length_groups in Hj. }
    rewrite groups_lookup in Hj by done. injection Hj as <-.
    rewrite list_lookup_fmap, group_of_lookup in Hq by done.
    destruct (array !! (q * S K + j)%nat) as [item|]; [|done].
    injection Hq as <-. done.
Qed.

Lemma chunkArray_placed_witness :
  chunkArray sample_products six_products 4
    = Some (groups sample_products 4 six_products)
  /\ length (groups sample_products 4 six_products) = 4%nat
  /\ length (concat (groups sample_products 4 six_products)) = length six_products.
Proof.
  assert (H : chunkArray sample_products six_products 4
              = Some (groups sample_products 4 six_products))
    by (vm_compute; reflexivity).
  split; [exact H|].
  destruct (chunkArray_placed sample_products six_products 4 _ H) as (Hlen & Hall & _).
  split; [exact Hlen|exact Hall].
Defined.

(** ** The workers that are created *)

Lemma flat_map_singletons {A B} (f : A -> list B) (h : A -> B) (l : list A) :
  (forall x, x ∈ l -> f x = [h x]) -> flat_map f l = h <$> l.
Proof.
  induction l as [|x l IH]; intros Hf; [done|]. cbn [flat_map].
  rewrite (Hf x) by by left. rewrite IH; [done|]. intros y Hy. apply Hf. by right.
Qed.

Lemma flat_map_empty {A B} (f : A -> list B) (l : list A) :
  (forall x, x ∈ l -> f x = []) -> flat_map f l = [].
Proof.
  induction l as [|x l IH]; intros Hf; [done|]. cbn [flat_map].
  rewrite (Hf x) by by left. rewrite IH; [done|]. intros y Hy. apply Hf. by right.
Qed.

(** A group is empty exactly when its number is not below the number of
    items. *)
Lemma group_of_empty {A} (K j : nat) (l : list A) :
  (j < K)%nat -> group_of K j l = [] <-> (length l <= j)%nat.
Proof.
  intros Hj. pose proof (count_bound K j (length l) 0 Hj) as Hb.
  rewrite <- length_group_of in Hb by done.
  destruct (group_of K j l); simpl in *; split; intros; try done; lia.
Qed.

(** The loop creates a worker for each of the first [min K N] chunks. *)
Lemma spawn_groups (productsData : list Product) (K : nat) (l : list Product) :
  spawn (groups productsData K l) K
  = (fun j => (j, work_item_of productsData <$> group_of K j l))
      <$> seq 0 (Nat.min K (length l)).
Proof.
  unfold spawn.
  assert (Hseq : seq 0 K = seq 0 (Nat.min K (length l))
                           ++ seq (Nat.min K (length l)) (K - Nat.min K (length l))).
  { rewrite <- (Nat.add_0_l (Nat.min K (length l))) at 2. rewrite <- seq_app.
    f_equal. lia. }
  rewrite Hseq, flat_map_app.
  rewrite (flat_map_singletons _
             (fun j => (j, work_item_of productsData <$> group_of K j l))).
  - rewrite flat_map_empty; [by rewrite app_nil_r|].
    intros j [Hlo Hhi]%elem_of_seq. rewrite groups_lookup by lia.
    assert (Hempty : group_of K j l = []) by (apply group_of_empty; lia).
    by rewrite Hempty.
  - intros j [_ Hhi]%elem_of_seq. rewrite groups_lookup by lia.
    destruct (group_of K j l) as [|x g] eqn:Hg; [|done].
    apply group_of_empty in Hg; lia.
Qed.

(** X10. With at least one worker slot, a worker is created for each of the
    slots 0 .. min(K, N) - 1, where N is the number of pending products:
    never more workers than pending products, and at least one when a product
    is pending.  Each worker is given the chunk of its slot, which is not
    empty. *)
Theorem workers_slots (productsData : list Product) (K : nat) :
  (1 <= K)%nat ->
  (workers productsData K).*1
  = seq 0 (Nat.min K (length (productsToProcess productsData)))
  /\ forall i chunk, (i, chunk) ∈ workers productsData K ->
       chunk <> []
       /\ exists chunks,
            chunkArray productsData (productsToProcess productsData) K = Some chunks
            /\ chunks !! i = Some chunk.
Proof.
  intros HK. unfold workers.
  destruct (Nat.eqb_spec (length (productsToProcess productsData)) 0) as [Hnone|Hsome].
  { rewrite Hnone, Nat.min_0_r. split; [done|]. by intros i chunk ?%elem_of_nil. }
  rewrite chunkArray_groups, spawn_groups by done. split.
  - rewrite <- list_fmap_compose. apply list_fmap_id.
  - intros i chunk (j & [= -> ->] & [_ Hj]%elem_of_seq)%list_elem_of_fmap. split.
    + intros Hempty%fmap_nil_inv. apply group_of_empty in Hempty; lia.
    + eexists. split; [done|]. apply groups_lookup. lia.
Qed.

Lemma workers_slots_witness :
  (1 <= 5)%nat
  /\ (workers sample_products 5).*1 = [0%nat; 1%nat]
  /\ (workers six_products 3).*1 = [0%nat; 1%nat; 2%nat].
Proof.
  assert (H5 : (1 <= 5)%nat) by lia. assert (H3 : (1 <= 3)%nat) by lia.
  split; [exact H5|]. split.
  - exact (proj1 (workers_slots sample_products 5 H5)).
  - exact (proj1 (workers_slots six_products 3 H3)).
Defined.

(** ** What main does after the wait *)

Lemma filter_after_wait_final (productsData : list Product) :
  List.filter after_wait (shutdown_and_persist productsData) = final_steps productsData.
Proof. reflexivity. Qed.

Lemma await_workers_final (productsData : list Product) (n : nat) (events : inbox)
    (c : nat) :
  ((n <= c)%nat ->
     List.filter after_wait (await_workers productsData n c events) = [])
  /\ (List.filter after_wait (await_workers productsData n c events) = []
      \/ List.filter after_wait (await_workers productsData n c events)
         = final_steps productsData).
Proof.
  revert c. induction events as [|[i [message|]] events IH]; intros c;
    cbn [await_workers].
  - split; [done|by left].
  - cbn [List.filter after_wait stops_server writes_store orb].
    destruct (string_strict_eq message (lit "DONE")); [|apply IH].
    rewrite List.filter_app. destruct (IH (S c)) as [IHge IHany].
    destruct (Nat.eqb_spec (S c) n) as [Heq|Hne].
    + rewrite filter_after_wait_final, IHge, app_nil_r by lia. split; [lia|by right].
    + cbn [List.filter app]. split; [|done]. intros Hle. apply IHge. lia.
  - cbn [List.filter after_wait stops_server writes_store orb]. apply IH.
Qed.

(** X12. Whatever arrives from the workers, [main] closes the server and
    writes the product file at most once, the write after the close and of
    the updated collection: of these steps it has done none, or exactly the
    close followed by that one write. *)
Theorem main_final_steps (productsData : list Product) (K : nat) (events : inbox) :
  List.filter after_wait (main productsData K events) = []
  \/ List.filter after_wait (main productsData K events) = final_steps productsData.
Proof.
  unfold main. destruct (_ =? _)%nat; [by left|].
  rewrite List.filter_app. cbn [List.filter after_wait stops_server writes_store orb app].
  destruct (chunkArray _ _ _) as [productChunks|]; [|by left].
  rewrite List.filter_app.
  assert (Hnew : List.filter after_wait (NewWorker <$> (spawn productChunks K).*2) = []).
  { induction ((spawn productChunks K).*2); [done|]. by rewrite fmap_cons. }
  rewrite Hnew. cbn [app].
  destruct (_ =? _)%nat; [right; apply filter_after_wait_final|].
  apply await_workers_final.
Qed.

(** ** Completion *)

Lemma sum_list_with_indicator_le (ids : list nat) (j v : nat) :
  NoDup ids ->
  (sum_list_with (fun i => if (i =? j)%nat then v else 0%nat) ids <= v)%nat.
Proof.
  intros Hids. destruct (decide (j ∈ ids)) as [Hj|Hj].
  - by rewrite sum_list_with_indicator.
  - rewrite (sum_list_with_ext _ (fun _ => 0%nat)), sum_list_with_zero; [lia|].
    intros i Hi. destruct (Nat.eqb_spec i j) as [->|]; done.
Qed.

Lemma count_done_by_sender (ids : list nat) (events : inbox) :
  NoDup ids ->
  (sum_list_with (fun i => count_done (messages_from i events)) ids
   <= count_done (all_messages events))%nat.
Proof.
  intros Hids. induction events as [|[j [message|]] events IH].
  - by rewrite sum_list_with_zero.
  - change (all_messages ((j, Message message) :: events))
      with ([message] ++ all_messages events).
    rewrite count_done_app.
    pose proof (sum_list_with_indicator_le ids j (count_done [message]) Hids) as Hle.
    rewrite (sum_list_with_ext _
               (fun i => (if (i =? j)%nat then count_done [message] else 0)
                         + count_done (messages_from i events))%nat).
    + rewrite sum_list_with_add. lia.
    + intros i _. rewrite messages_from_cons, count_done_app.
      by destruct (i =? j)%nat.
  - exact IH.
Qed.

Lemma messages_from_intro (i : nat) (message : jsstring) (events : inbox) :
  (i, Message message) ∈ events -> message ∈ messages_from i events.
Proof.
  induction events as [|[j [m|]] events IH]; [by intros ?%elem_of_nil|..].
  - rewrite messages_from_cons, elem_of_cons, elem_of_app.
    intros [[= <- <-]|H]; [left|right; auto].
    rewrite Nat.eqb_refl. by left.
  - rewrite elem_of_cons. intros [[=]|H]. by apply IH.
Qed.

Lemma count_done_elem (messages : list jsstring) :
  lit "DONE" ∈ messages -> (1 <= count_done messages)%nat.
Proof.
  intros Hin. destruct (count_done messages) eqn:Hcount; [|lia].
  exfalso. revert Hin Hcount. unfold count_done.
  induction messages as [|m messages IH]; [by intros ?%elem_of_nil|].
  rewrite elem_of_cons. cbn [List.filter]. unfold string_strict_eq at 1.
  intros [<-|Hin].
  - by rewrite bool_decide_eq_true_2.
  - destruct (bool_decide _); [done|auto].
Qed.

Lemma sum_list_with_ge {A} (f : A -> nat) (l : list A) :
  (forall x, x ∈ l -> (1 <= f x)%nat) -> (length l <= sum_list_with f l)%nat.
Proof.
  induction l as [|x l IH]; intros Hf; [done|]. cbn.
  pose proof (Hf x ltac:(left)).
  assert (length l <= sum_list_with f l)%nat; [|lia].
  apply IH. intros y Hy. apply Hf. by right.
Qed.

(** Once enough completions are among the events, the rest of [main] has
    run. *)
Lemma await_workers_reaches (productsData : list Product) (n : nat)
    (events : inbox) (c : nat) (e : effect) :
  (c < n <= c + count_done (all_messages events))%nat ->
  e ∈ shutdown_and_persist productsData ->
  e ∈ await_workers productsData n c events.
Proof.
  revert c. induction events as [|[i [message|]] events IH]; intros c Hc He.
  - cbn in Hc. lia.
  - change (all_messages ((i, Message message) :: events))
      with ([message] ++ all_messages events) in Hc.
    rewrite count_done_app in Hc. unfold count_done at 1 in Hc.
    cbn [List.filter] in Hc. cbn [await_workers]. right.
    destruct (string_strict_eq message (lit "DONE")); cbn [length] in Hc.
    + apply elem_of_app. destruct (Nat.eqb_spec (S c) n); [by left|].
      right. apply IH; [lia|done].
    + apply IH; [lia|done].
  - cbn [await_workers]. right. by apply IH.
Qed.

(** X11. With at least one worker slot and a product pending, as soon as
    the completion notification of every created worker is among the events
    -- in whatever order, and whatever else arrives -- [main] has gone on to
    close the server and to call the write of the product file with the
    updated collection. *)
Theorem main_completes (productsData : list Product) (K : nat) (events : inbox) :
  (1 <= K)%nat ->
  productsToProcess productsData <> [] ->
  (forall i chunk, (i, chunk) ∈ workers productsData K ->
     (i, Message (lit "DONE")) ∈ events) ->
  ServerClose ∈ main productsData K events
  /\ WriteProducts (updatedProducts productsData) ∈ main productsData K events.
Proof.
  intros HK Hpending Hdone.
  assert (Hreach : forall e, e ∈ shutdown_and_persist productsData ->
                     e ∈ main productsData K events).
  { intros e He. revert Hdone. unfold main, workers.
    destruct (Nat.eqb_spec (length (productsToProcess productsData)) 0) as [Hz|_].
    { by apply nil_length_inv in Hz. }
    rewrite chunkArray_groups by done. intros Hdone.
    apply elem_of_app. right. apply elem_of_app. right.
    set (created := spawn _ K) in *.
    destruct (Nat.eqb_spec (length created) 0) as [|Hsome]; [done|].
    apply await_workers_reaches; [|done].
    pose proof (count_done_by_sender created.*1 events (spawn_ids _ K)) as Hsum.
    assert (length created.*1
            <= sum_list_with (fun i => count_done (messages_from i events)) created.*1)%nat.
    { apply sum_list_with_ge.
      intros i ((i' & chunk) & -> & Hin)%list_elem_of_fmap.
      apply count_done_elem, messages_from_intro, (Hdone i' chunk Hin). }
    rewrite length_fmap in *. lia. }
  split; apply Hreach; unfold shutdown_and_persist; repeat constructor.
Qed.

Lemma main_completes_witness :
  (1 <= 2)%nat
  /\ productsToProcess sample_products <> []
  /\ (forall i chunk, (i, chunk) ∈ workers sample_products 2 ->
        (i, Message (lit "DONE")) ∈ sample_events)
  /\ ServerClose ∈ main sample_products 2 sample_events
  /\ WriteProducts (updatedProducts sample_products)
       ∈ main sample_products 2 sample_events.
Proof.
  assert (H1 : (1 <= 2)%nat) by lia.
  assert (H2 : productsToProcess sample_products <> []) by (vm_compute; discriminate).
  assert (H3 : forall i chunk, (i, chunk) ∈ workers sample_products 2 ->
                 (i, Message (lit "DONE")) ∈ sample_events).
  { intros i chunk Hin.
    assert (Hi : i ∈ (workers sample_products 2).*1)
      by (apply list_elem_of_fmap; by exists (i, chunk)).
    vm_compute in Hi.
    apply elem_of_cons in Hi as [->|Hi]; [vm_compute; repeat constructor|].
    apply elem_of_cons in Hi as [->|Hi]; [vm_compute; repeat constructor|].
    by apply elem_of_nil in Hi. }
  split; [exact H1|]. split; [exact H2|]. split; [exact H3|].
  exact (main_completes sample_products 2 sample_events H1 H2 H3).
Defined.

(** ** The next run *)

Lemma number_strict_eq_refl (x : number) : number_strict_eq x x = true.
Proof. destruct x as [m e|[|]]; simpl; [apply Z.eqb_refl|done..]. Qed.

Lemma written_file_read_as (products : list Product) :
  Forall (fun p => is_finite (current_price p) = true) products ->
  written_file (updatedProducts products) = read_as <$> updatedProducts products.
Proof.
  unfold written_file, updatedProducts.
  induction 1 as [|p products Hp _ IH]; [done|].
  rewrite !fmap_cons. f_equal; [|done].
  unfold JSON_record, read_as.
  cbn [productCode variation_suffix current_price previous_price].
  by destruct (current_price p).
Qed.

(** X13. When every current price is finite, the file [main] writes is read
    as the updated collection, in which no product is pending and which
    updating again leaves as it is: a run that loads what the previous run
    wrote only logs that nothing changed, whatever the worker count. *)
Theorem next_run_idle (productsData : list Product) :
  Forall (fun p => is_finite (current_price p) = true) productsData ->
  written_file (updatedProducts productsData)
  = read_as <$> updatedProducts productsData
  /\ productsToProcess (updatedProducts productsData) = []
  /\ updatedProducts (updatedProducts productsData) = updatedProducts productsData
  /\ forall K events,
       main (updatedProducts productsData) K events = [Console LogNoChanges].
Proof.
  intros Hfinite. split; [by apply written_file_read_as|].
  assert (Hnone : productsToProcess (updatedProducts productsData) = []).
  { clear Hfinite. unfold productsToProcess, updatedProducts.
    induction productsData as [|r l IH]; [done|].
    rewrite fmap_cons. cbn [List.filter]. unfold price_changed at 1.
    cbn [previous_price current_price is_null is_undefined strict_eq_number orb].
    by rewrite number_strict_eq_refl. }
  split; [done|]. split.
  - unfold updatedProducts. rewrite <- list_fmap_compose. by apply list_fmap_ext.
  - intros K events. unfold main. by rewrite Hnone.
Qed.

Lemma next_run_idle_witness :
  Forall (fun p => is_finite (current_price p) = true) sample_products
  /\ written_file (updatedProducts sample_products)
     = read_as <$> updatedProducts sample_products
  /\ main (updatedProducts sample_products) 2 sample_events
     = [Console LogNoChanges].
Proof.
  assert (H : Forall (fun p => is_finite (current_price p) = true) sample_products)
    by (repeat constructor).
  split; [exact H|].
  destruct (next_run_idle sample_products H) as (Hfile & _ & _ & Hmain).
  split; [exact Hfile|exact (Hmain 2%nat sample_events)].
Defined.

(** ** What a worker posts *)

Lemma count_done_zero (messages : list jsstring) :
  count_done messages = 0%nat -> lit "DONE" ∉ messages.
Proof. intros Hzero Hin%count_done_elem. lia. Qed.

(** X14. A worker's messages end in one of two ways: the two messages of
    every item of its chunk, in order, and then [DONE]; or no [DONE] at all
    and an error message last.  So a [DONE] tells that every item of the
    chunk was captured, and nothing follows it. *)
Theorem worker_last_message (path_join : jsstring -> jsstring -> jsstring)
    (outputDir : jsstring) (productChunk : list work_item) (o : outcome) :
  (worker path_join outputDir productChunk o
   = flat_map (item_messages path_join outputDir) productChunk ++ [lit "DONE"])
  \/ ((lit "DONE" ∉ worker path_join outputDir productChunk o)
      /\ exists error,
           last (worker path_join outputDir productChunk o)
           = Some (error_message error)).
Proof.
  destruct o as [|error|i error|error]; cbn [worker]; [by left|right|..].
  - split; [|by exists error]. apply count_done_zero, error_message_not_done.
  - destruct (productChunk !! i) as [item|]; [right|by left]. split.
    + apply count_done_zero.
      by rewrite !count_done_app, item_messages_not_done, error_message_not_done,
        processing_message_not_done.
    + exists error. by rewrite !app_assoc, last_snoc.
  - right. split.
    + apply count_done_zero.
      by rewrite count_done_app, item_messages_not_done, error_message_not_done.
    + exists error. by rewrite last_snoc.
Qed.

(** ** The accuracy of the rendered price *)

Lemma Qabs_Qvalue (m e : Z) : (Qabs (Qvalue m e) == Qvalue (Z.abs m) e)%Q.
Proof.
  unfold Qvalue. rewrite Qabs_Qmult.
  rewrite (Qabs_pos (2 ^ e)) by (apply Qpower_pos; discriminate).
  apply Qmult_comp; [|reflexivity]. unfold Qabs, inject_Z. reflexivity.
Qed.

(** X15. For a finite price below 10^21 in magnitude, what [toFixed(2)]
    returns is the sign, the digits of [n / 100], a point and the two digits
    of [n mod 100], where the integer [n] is within one half of a hundred
    times the magnitude of the price: the price on the card is off by at most
    half a hundredth. *)
Theorem toFixed2_accuracy (m e : Z) :
  (Qabs (Qvalue m e) < inject_Z (10 ^ 21))%Q ->
  exists n,
    0 <= n
    /\ toFixed2 (Finite m e)
       = (if m <? 0 then lit "-" else [])
         ++ decimal (n / 100) ++ lit "." ++ [48 + n mod 100 / 10; 48 + n mod 10]
    /\ (inject_Z (2 * n - 1) <= 200 * Qabs (Qvalue m e))%Q
    /\ (200 * Qabs (Qvalue m e) < inject_Z (2 * n + 1))%Q.
Proof.
  intros Hsmall. exists (nearest_hundredths (Z.abs m) e).
  split; [apply nearest_hundredths_nonneg, Z.abs_nonneg|].
  split; [by apply toFixed2_two_decimals, at_least_1e21_spec|].
  rewrite Qabs_Qvalue. apply nearest_hundredths_nearest.
Qed.

Lemma toFixed2_accuracy_witness :
  (Qabs (Qvalue 5601352036542054 (-48)) < inject_Z (10 ^ 21))%Q
  /\ exists n,
       toFixed2 price_19_9
       = decimal (n / 100) ++ lit "." ++ [48 + n mod 100 / 10; 48 + n mod 10]
       /\ (inject_Z (2 * n - 1) <= 200 * Qabs (Qvalue 5601352036542054 (-48)))%Q.
Proof.
  assert (H : (Qabs (Qvalue 5601352036542054 (-48)) < inject_Z (10 ^ 21))%Q)
    by (vm_compute; reflexivity).
  split; [exact H|].
  destruct (toFixed2_accuracy 5601352036542054 (-48) H) as (n & _ & Htext & Hlow & _).
  exists n. split; [exact Htext|exact Hlow].
Defined.

(** ** The worker count of the program *)

Lemma await_workers_logs (productsData : list Product) (n c : nat)
    (events : inbox) (e : effect) :
  e ∈ await_workers productsData n c events ->
  (exists i message, e = Console (LogWorkerSays i message))
  \/ (exists i, e = Console (LogWorkerError i))
  \/ e ∈ shutdown_and_persist productsData.
Proof.
  revert c. induction events as [|[i [message|]] events IH]; intros c;
    cbn [await_workers].
  - by intros ?%elem_of_nil.
  - rewrite elem_of_cons. intros [->|H]; [eauto|].
    destruct (string_strict_eq message (lit "DONE")); [|by eapply IH].
    apply elem_of_app in H as [H|H]; [|by eapply IH].
    destruct (S c =? n)%nat; [auto|by apply elem_of_nil in H].
  - rewrite elem_of_cons. intros [->|H]; [eauto|by eapply IH].
Qed.

(** X16. The worker count the program computes from the number of CPUs
    (the length of an array, so below 2^32) is at least one, at most the
    number of CPUs when there is one, and from two CPUs on three quarters of
    them rounded down.  With it the partitioner returns that many chunks, and
    when a product is pending a worker is created: [workerPromise] is not
    resolved for want of workers, and before any worker event [main] has
    neither closed the server nor called the write. *)
Theorem NUM_WORKERS_workers (productsData : list Product) (cpus : nat) :
  Z.of_nat cpus < 2 ^ 32 ->
  (1 <= NUM_WORKERS cpus <= Nat.max 1 cpus)%nat
  /\ ((2 <= cpus)%nat ->
      (4 * NUM_WORKERS cpus <= 3 * cpus < 4 * NUM_WORKERS cpus + 4)%nat)
  /\ (exists productChunks,
        chunkArray productsData (productsToProcess productsData) (NUM_WORKERS cpus)
        = Some productChunks
        /\ length productChunks = NUM_WORKERS cpus)
  /\ (productsToProcess productsData <> [] ->
      workers productsData (NUM_WORKERS cpus) <> []
      /\ forall e, e ∈ main productsData (NUM_WORKERS cpus) [] ->
           after_wait e = false).
Proof.
  intros _.
  assert (Hdiv : (4 * (cpus * 3 / 4) <= 3 * cpus < 4 * (cpus * 3 / 4) + 4)%nat).
  { pose proof (Nat.div_mod_eq (cpus * 3) 4).
    pose proof (Nat.mod_upper_bound (cpus * 3) 4). lia. }
  split; [unfold NUM_WORKERS; lia|]. split; [unfold NUM_WORKERS; lia|].
  split.
  { eexists. split; [apply chunkArray_NUM_WORKERS|apply length_groups]. }
  intros Hpending.
  assert (Hcreated : workers productsData (NUM_WORKERS cpus) <> []).
  { unfold workers.
    destruct (Nat.eqb_spec (length (productsToProcess productsData)) 0) as [Hz|Hsome].
    { by apply nil_length_inv in Hz. }
    rewrite chunkArray_NUM_WORKERS, spawn_groups.
    pose proof (NUM_WORKERS_positive cpus).
    destruct (Nat.min _ _) as [|n] eqn:Hmin; [lia|]. by cbn. }
  split; [done|]. intros e He.
  destruct (after_wait e) eqn:Hafter; [|done].
  destruct (main_after_wait productsData (NUM_WORKERS cpus) [] e He Hafter)
    as [Hnil|Hlen]; [done|].
  cbn in Hlen. destruct (workers productsData (NUM_WORKERS cpus)); [done|].
  cbn in Hlen. lia.
Qed.

Lemma NUM_WORKERS_workers_witness :
  Z.of_nat 8 < 2 ^ 32
  /\ NUM_WORKERS 8 = 6%nat
  /\ (1 <= NUM_WORKERS 8 <= Nat.max 1 8)%nat
  /\ workers sample_products (NUM_WORKERS 8) <> [].
Proof.
  assert (H : Z.of_nat 8 < 2 ^ 32) by (vm_compute; reflexivity).
  assert (Hpending : productsToProcess sample_products <> [])
    by (vm_compute; discriminate).
  split; [exact H|]. split; [reflexivity|].
  destruct (NUM_WORKERS_workers sample_products 8 H) as (Hbound & _ & _ & Hcreated).
  split; [exact Hbound|exact (proj1 (Hcreated Hpending))].
Defined.

(** ** Other forms of the index parameter *)

Lemma trim_start_whitespace (ws s : jsstring) :
  Forall (fun c => is_whitespace c = true) ws -> trim_start (ws ++ s) = trim_start s.
Proof. induction 1 as [|c ws Hc _ IH]; [done|]. simpl. by rewrite Hc. Qed.

(** X17. White space before the index is ignored: a parameter with leading
    spaces, tabs or line breaks is answered as the parameter without them. *)
Theorem get_product_leading_whitespace (productsData : list Product)
    (ws index : jsstring) :
  Forall (fun c => is_whitespace c = true) ws ->
  get_product productsData (ws ++ index) = get_product productsData index.
Proof.
  intros Hws. unfold get_product, parseInt.
  rewrite trim_start_whitespace by done.
  destruct index as [|c index]; [done|]. cbn [trim_start].
  destruct (is_whitespace c) eqn:Hc; [|done].
  by rewrite <- (trim_start_whitespace [c] index) by (by constructor).
Qed.

Lemma get_product_leading_whitespace_witness :
  Forall (fun c => is_whitespace c = true) (lit "  ")
  /\ get_product sample_products (lit "  1")
     = {| status := 200; body := product_page product_B |}.
Proof.
  assert (H : Forall (fun c => is_whitespace c = true) (lit "  ")) by by_computation.
  split; [exact H|].
  change (lit "  1") with (lit "  " ++ lit "1").
  rewrite (get_product_leading_whitespace sample_products (lit "  ") (lit "1") H).
  vm_compute. reflexivity.
Defined.

Lemma digit_value_hex (c : Z) :
  digit_value 16 c = if is_hex_digit c then Some (hex_digit_value c) else None.
Proof.
  unfold digit_value, is_hex_digit, hex_digit_value.
  destruct ((48 <=? c) && (c <=? 57)) eqn:Hd.
  { replace (c - 48 <? 16) with true by lia. replace (c <=? 57) with true by lia.
    reflexivity. }
  destruct ((97 <=? c) && (c <=? 122)) eqn:Hl.
  { destruct ((97 <=? c) && (c <=? 102)) eqn:Hf.
    - replace (c - 97 + 10 <? 16) with true by lia.
      replace (c <=? 57) with false by lia. replace (97 <=? c) with true by lia.
      cbn [orb]. f_equal. lia.
    - replace (c - 97 + 10 <? 16) with false by lia.
      replace ((65 <=? c) && (c <=? 70)) with false by lia. reflexivity. }
  replace ((97 <=? c) && (c <=? 102)) with false by lia.
  destruct ((65 <=? c) && (c <=? 90)) eqn:Hu.
  { destruct ((65 <=? c) && (c <=? 70)) eqn:Hf.
    - replace (c - 65 + 10 <? 16) with true by lia.
      replace (c <=? 57) with false by lia. replace (97 <=? c) with false by lia.
      cbn [orb]. f_equal. lia.
    - replace (c - 65 + 10 <? 16) with false by lia. reflexivity. }
  replace ((65 <=? c) && (c <=? 70)) with false by lia.
  by rewrite Z.ltb_irrefl.
Qed.

Lemma read_digits_hex (digits rest : jsstring) (acc : Z) (any : bool) :
  Forall (fun c => is_hex_digit c = true) digits ->
  (forall c, head rest = Some c -> is_hex_digit c = false) ->
  read_digits 16 (digits ++ rest) acc any
  = (foldl (fun acc c => acc * 16 + hex_digit_value c) acc digits,
     match digits with [] => any | _ => true end).
Proof.
  intros Hd Hrest. revert acc any.
  induction Hd as [|c digits Hc Hd IH]; intros acc any; cbn [app read_digits foldl].
  - destruct rest as [|c rest]; [done|]. cbn [read_digits].
    by rewrite digit_value_hex, (Hrest c eq_refl).
  - rewrite digit_value_hex, Hc, IH. by destruct digits.
Qed.

(** X18. A parameter that begins with [0x] or [0X] is read in base 16: with
    hexadecimal digits after the prefix it is served the page of the product
    at the index they denote, and with none it gets the not-found answer,
    although it begins with the digit 0. *)
Theorem get_product_hexadecimal (productsData : list Product) (x : Z)
    (digits rest : jsstring) :
  x = 120 \/ x = 88 ->
  Forall (fun c => is_hex_digit c = true) digits ->
  (forall c, head rest = Some c -> is_hex_digit c = false) ->
  parseInt (48 :: x :: digits ++ rest)
  = match digits with [] => None | _ => Some (hex_value digits) end
  /\ (digits = [] ->
      get_product productsData (48 :: x :: digits ++ rest) = not_found)
  /\ forall i p, digits <> [] -> hex_value digits = Z.of_nat i ->
       productsData !! i = Some p ->
       get_product productsData (48 :: x :: digits ++ rest)
       = {| status := 200; body := product_page p |}.
Proof.
  intros Hx Hd Hrest.
  assert (Hparse : parseInt (48 :: x :: digits ++ rest)
                   = match digits with [] => None | _ => Some (hex_value digits) end).
  { unfold parseInt. cbn [trim_start].
    change (is_whitespace 48) with false. cbv iota.
    cbn [strip_sign]. change (48 =? 45) with false. change (48 =? 43) with false.
    cbv iota. unfold strip_prefix. cbn [has_hex_prefix].
    replace ((48 =? 48) && ((x =? 120) || (x =? 88))) with true by lia.
    change (drop 2 (48 :: x :: digits ++ rest)) with (digits ++ rest).
    rewrite read_digits_hex by done.
    destruct digits; [done|]. unfold hex_value. f_equal. lia. }
  split; [done|]. split.
  - intros ->. unfold get_product. by rewrite Hparse.
  - intros i p Hne Hval Hp. apply (get_product_at _ _ i p); [|done].
    rewrite Hparse. destruct digits; [done|]. by rewrite Hval.
Qed.

Lemma get_product_hexadecimal_witness :
  (120 = 120 \/ 120 = 88)
  /\ Forall (fun c => is_hex_digit c = true) (lit "2")
  /\ (forall c, head (lit "g") = Some c -> is_hex_digit c = false)
  /\ get_product sample_products (lit "0x2g")
     = {| status := 200; body := product_page product_C |}.
Proof.
  assert (H1 : 120 = 120 \/ 120 = 88) by (left; reflexivity).
  assert (H2 : Forall (fun c => is_hex_digit c = true) (lit "2")) by by_computation.
  assert (H3 : forall c, head (lit "g") = Some c -> is_hex_digit c = false)
    by (intros c [= <-]; reflexivity).
  split; [exact H1|]. split; [exact H2|]. split; [exact H3|].
  destruct (get_product_hexadecimal sample_products 120 (lit "2") (lit "g") H1 H2 H3)
    as (_ & _ & Hserved).
  exact (Hserved 2%nat product_C ltac:(discriminate) eq_refl eq_refl).
Defined.

(** ** The order of the effects *)

(** X19. Whenever [main] creates a worker, the server has been told to
    listen before and has not been closed yet: the workers' requests never
    meet a server that was closed before they were created. *)
Theorem main_worker_after_listen (productsData : list Product) (K : nat)
    (events : inbox) (i : nat) (productChunk : list work_item) :
  main productsData K events !! i = Some (NewWorker productChunk) ->
  ServerListen 3000 ∈ take i (main productsData K events)
  /\ ServerClose ∉ take i (main productsData K events).
Proof.
  unfold main. destruct (_ =? _)%nat.
  { destruct i; [discriminate|done]. }
  destruct (chunkArray _ _ _) as [productChunks|].
  2:{ destruct i as [|[|[|[|i]]]]; discriminate. }
  set (news := NewWorker <$> (spawn productChunks K).*2).
  set (rest := if (_ =? _)%nat then _ else _).
  assert (Hrest : forall e, e ∈ rest -> forall chunk, e <> NewWorker chunk).
  { intros e He chunk ->. subst rest. destruct (_ =? _)%nat.
    - unfold shutdown_and_persist in He. rewrite !elem_of_cons, elem_of_nil in He.
      destruct He as [[=]|[[=]|[[=]|[[=]|[[=]|[]]]]]].
    - apply await_workers_logs in He as [(j & message & [=])|[(j & [=])|He]].
      unfold shutdown_and_persist in He. rewrite !elem_of_cons, elem_of_nil in He.
      destruct He as [[=]|[[=]|[[=]|[[=]|[[=]|[]]]]]]. }
  assert (Hnews : forall e, e ∈ news -> e <> ServerClose).
  { intros e (chunk & -> & _)%list_elem_of_fmap. discriminate. }
  destruct i as [|[|[|i]]]; try discriminate. cbn [app take].
  intros Hi. change ((news ++ rest) !! i = Some (NewWorker productChunk)) in Hi.
  destruct (decide (i < length news)%nat) as [Hlt|Hge].
  - rewrite take_app_le by lia. split; [repeat constructor|].
    rewrite !not_elem_of_cons. repeat split; try discriminate.
    intros Hclose. apply (Hnews ServerClose); [|done].
    apply elem_of_take in Hclose as (j & Hj & _).
    by eapply list_elem_of_lookup_2.
  - rewrite lookup_app_r in Hi by lia.
    exfalso. eapply (Hrest _ (list_elem_of_lookup_2 _ _ _ Hi)). reflexivity.
Qed.

Lemma main_worker_after_listen_witness :
  main sample_products 2 sample_events !! 3%nat = Some (NewWorker [work_B])
  /\ ServerListen 3000 ∈ take 3 (main sample_products 2 sample_events).
Proof.
  assert (H : main sample_products 2 sample_events !! 3%nat = Some (NewWorker [work_B]))
    by (vm_compute; reflexivity).
  split; [exact H|].
  exact (proj1 (main_worker_after_listen sample_products 2 sample_events 3 _ H)).
Defined.
